(** * ctk-go: ChaCha20, Poly1305 and their AEAD compositions

    A shallow embedding of the Go packages [chacha20], [poly1305],
    [chacha20poly1305], [xchacha20] and [xchacha20poly1305].

    Conventions of the embedding:
    - a [uint32] is a [Z] in [0, 2^32); every addition of the source that can
      leave that range is followed by its wrap-around [uint32];
    - a [byte] is a [Z] in [0, 256);
    - Go arrays and slices are lists; indices and lengths are [nat];
    - [*big.Int] is [Z];
    - a method with a pointer receiver takes the struct and returns the
      updated struct next to its result. *)

From Stdlib Require Import String Ascii ZArith Lia ZifyNat Bool Arith List.
Import ListNotations.
Local Open Scope Z_scope.

(** ** Go built-ins used by the packages *)

Module Go.

(** The conversions [byte(x)] and [uint32(x)] of a non-negative integer. *)
Definition byte (x : Z) : Z := x mod 256.
Definition uint32 (x : Z) : Z := x mod 2 ^ 32.

(** [bits.RotateLeft32(x, k)]: [s := uint(k) & 31; x<<s | x>>(32-s)]. *)
Definition RotateLeft32 (x : Z) (k : Z) : Z :=
  let s := Z.land k 31 in
  Z.lor (uint32 (Z.shiftl x s)) (Z.shiftr x (32 - s)).

(** [a[i]] on a list (the embedding reads 0 past the end; every index of the
    source is shown in range where it matters) and the assignment
    [a[i] = v]. *)
Definition get (a : list Z) (i : nat) : Z := nth i a 0.

Fixpoint set (a : list Z) (i : nat) (v : Z) : list Z :=
  match a, i with
  | [], _ => []
  | _ :: t, O => v :: t
  | h :: t, S j => h :: set t j v
  end.

(** [a[lo:hi]] and [a[lo:]]. *)
Definition slice (a : list Z) (lo hi : nat) : list Z :=
  firstn (hi - lo) (skipn lo a).
Definition sliceFrom (a : list Z) (lo : nat) : list Z := skipn lo a.

(** [copy(dst[lo:hi], src)], returning the updated [dst]. *)
Definition copy (dst : list Z) (lo hi : nat) (src : list Z) : list Z :=
  let n := Nat.min (hi - lo) (length src) in
  firstn lo dst ++ firstn n src ++ skipn (lo + n) dst.

(** [binary.LittleEndian.Uint32(b)]. *)
Definition LittleEndian_Uint32 (b : list Z) : Z :=
  Z.lor (get b 0)
    (Z.lor (Z.shiftl (get b 1) 8)
       (Z.lor (Z.shiftl (get b 2) 16) (Z.shiftl (get b 3) 24))).

(** [int(math.Ceil(float64(n) / bs))]; the float64 division is exact for
    every length below 2^53. *)
Definition ceilDiv (n bs : nat) : nat := ((n + bs - 1) / bs)%nat.

End Go.

Import Go.

(** Well-formed byte and word sequences. *)
Definition is_byte (b : Z) : Prop := 0 <= b < 256.
Definition is_word (w : Z) : Prop := 0 <= w < 2 ^ 32.
Definition bytes_ok (l : list Z) : Prop := Forall is_byte l.
Definition words_ok (l : list Z) : Prop := Forall is_word l.

(** ** Package chacha20 *)

Module chacha20.

Definition BlockSize : nat := 64.

Record ChaCha20 : Type := mkChaCha20 {
  counter : Z;
  key : list Z;
  nonce : list Z;
  state : list Z
}.

Definition with_state (s : ChaCha20) (st : list Z) : ChaCha20 :=
  mkChaCha20 (counter s) (key s) (nonce s) st.
Definition with_counter (s : ChaCha20) (c : Z) : ChaCha20 :=
  mkChaCha20 c (key s) (nonce s) (state s).

(** [initState] *)
Definition initState (key nonce : list Z) (counter : Z) : list Z :=
  let constant := [0x61707865; 0x3320646e; 0x79622d32; 0x6b206574] in
  let state := repeat 0 16 in
  let state := copy state 0 4 constant in
  let state := copy state 4 12 key in
  let state := set state 12 counter in
  let state := copy state 13 16 nonce in
  state.

(** [NewChaCha20] *)
Definition NewChaCha20 (key nonce counter : list Z) : ChaCha20 :=
  let k := [ LittleEndian_Uint32 (slice key 0 4);
             LittleEndian_Uint32 (slice key 4 8);
             LittleEndian_Uint32 (slice key 8 12);
             LittleEndian_Uint32 (slice key 12 16);
             LittleEndian_Uint32 (slice key 16 20);
             LittleEndian_Uint32 (slice key 20 24);
             LittleEndian_Uint32 (slice key 24 28);
             LittleEndian_Uint32 (slice key 28 32) ] in
  let b := LittleEndian_Uint32 counter in
  let n := [ LittleEndian_Uint32 (slice nonce 0 4);
             LittleEndian_Uint32 (slice nonce 4 8);
             LittleEndian_Uint32 (slice nonce 8 12) ] in
  let s := initState k n b in
  mkChaCha20 b k n s.

(** The function [quarterRound(a, b, c, d)]. *)
Definition quarterRound (a b c d : Z) : Z * Z * Z * Z :=
  let a := uint32 (a + b) in
  let d := Z.lxor d a in
  let d := RotateLeft32 d 16 in
  let c := uint32 (c + d) in
  let b := Z.lxor b c in
  let b := RotateLeft32 b 12 in
  let a := uint32 (a + b) in
  let d := Z.lxor d a in
  let d := RotateLeft32 d 8 in
  let c := uint32 (c + d) in
  let b := Z.lxor b c in
  let b := RotateLeft32 b 7 in
  (a, b, c, d).

(** The method [(s *ChaCha20) quarterRound(x, y, z, w)]. *)
Definition quarterRoundAt (x y z w : nat) (s : ChaCha20) : ChaCha20 :=
  let '(a, b, c, d) :=
    quarterRound (get (state s) x) (get (state s) y)
                 (get (state s) z) (get (state s) w) in
  let st := set (state s) x a in
  let st := set st y b in
  let st := set st z c in
  let st := set st w d in
  with_state s st.

Definition columnRound (s : ChaCha20) : ChaCha20 :=
  let s := quarterRoundAt 0 4 8 12 s in
  let s := quarterRoundAt 1 5 9 13 s in
  let s := quarterRoundAt 2 6 10 14 s in
  let s := quarterRoundAt 3 7 11 15 s in
  s.

Definition diagonalRound (s : ChaCha20) : ChaCha20 :=
  let s := quarterRoundAt 0 5 10 15 s in
  let s := quarterRoundAt 1 6 11 12 s in
  let s := quarterRoundAt 2 7 8 13 s in
  let s := quarterRoundAt 3 4 9 14 s in
  s.

Definition doubleRound (s : ChaCha20) : ChaCha20 :=
  diagonalRound (columnRound s).

(** The loop [for i, val := range old_state { s.state[i] += val }],
    started at index [i]. *)
Fixpoint addState (old_state : list Z) (i : nat) (st : list Z) : list Z :=
  match old_state with
  | [] => st
  | val :: rest => addState rest (S i) (set st i (uint32 (get st i + val)))
  end.

(** [CreateBlock]: the block and the instance after the call. *)
Definition CreateBlock (s : ChaCha20) : list Z * ChaCha20 :=
  let s := with_state s (initState (key s) (nonce s) (counter s)) in
  let old_state := state s in
  let s := Nat.iter 10 doubleRound s in
  let s := with_state s (addState old_state 0 (state s)) in
  let s := with_counter s (uint32 (counter s + 1)) in
  (state s, s).

(** The first inner loop of [XORWithKeyStream]:
    [for i := 0; i+4 <= len(block); i += 4], one keystream word a time. *)
Fixpoint xorWords (fuel : nat) (keyStream : list Z) (i : nat)
    (block : list Z) : list Z :=
  match fuel with
  | O => block
  | S fuel' =>
      if (i + 4 <=? length block)%nat then
        let keyStreamIndex := Nat.shiftr i 2 in
        let word := get keyStream keyStreamIndex in
        let block := set block i (Z.lxor (get block i) (byte word)) in
        let block :=
          set block (i + 1)
            (Z.lxor (get block (i + 1)) (byte (Z.shiftr word 8))) in
        let block :=
          set block (i + 2)
            (Z.lxor (get block (i + 2)) (byte (Z.shiftr word 16))) in
        let block :=
          set block (i + 3)
            (Z.lxor (get block (i + 3)) (byte (Z.shiftr word 24))) in
        xorWords fuel' keyStream (i + 4) block
      else block
  end.

(** The second inner loop:
    [for i := 0; i < len(rest); i++ { rest[i] ^= byte(word); word >>= 8 }]. *)
Fixpoint xorRest (rest : list Z) (word : Z) : list Z :=
  match rest with
  | [] => []
  | b :: rest' => Z.lxor b (byte word) :: xorRest rest' (Z.shiftr word 8)
  end.

(** What one iteration of the outer loop does to its [block]; [rest] aliases
    the tail of [block], so its writes land in [block]. *)
Definition xorBlock (keyStream block : list Z) : list Z :=
  let block := xorWords (length block) keyStream 0 block in
  let numProcessedBytes := Nat.land (length block) 124 in
  if (numProcessedBytes <? length block)%nat then
    let keyStreamIndex := Nat.shiftr numProcessedBytes 2 in
    let word := get keyStream keyStreamIndex in
    let rest := sliceFrom block numProcessedBytes in
    firstn numProcessedBytes block ++ xorRest rest word
  else block.

(** One iteration of [for i := range numBlocks]; [n] is [len(data)].
    [block] aliases [result[lo:hi]], so the iteration rewrites that range. *)
Definition xorStep (n : nat) (acc : list Z * ChaCha20) (i : nat)
    : list Z * ChaCha20 :=
  let '(result, c) := acc in
  let '(keyStream, c) := CreateBlock c in
  let lo := (i * BlockSize)%nat in
  let hi := if ((i + 1) * BlockSize <? n)%nat
            then ((i + 1) * BlockSize)%nat else length result in
  let block := slice result lo hi in
  (firstn lo result ++ xorBlock keyStream block ++ skipn hi result, c).

(** [XORWithKeyStream]: the returned bytes and the instance after the call. *)
Definition XORWithKeyStream (c : ChaCha20) (data : list Z)
    : list Z * ChaCha20 :=
  let result := data in
  let numBlocks := ceilDiv (length data) BlockSize in
  fold_left (xorStep (length data)) (seq 0 numBlocks) (result, c).

End chacha20.

(** ** Package poly1305 *)

Module poly1305.

Definition BlockSize : nat := 16.

(** [P], set by [init] from the hexadecimal string. *)
Definition P : Z := 0x3fffffffffffffffffffffffffffffffb.

Record Poly1305 : Type := mkPoly1305 {
  accum : Z;
  r : Z;
  s : Z
}.

Definition with_accum (p : Poly1305) (a : Z) : Poly1305 :=
  mkPoly1305 a (r p) (s p).

(** [new(big.Int).SetBytes(b)]: [b] is a big-endian unsigned integer. *)
Definition SetBytes (b : list Z) : Z :=
  fold_left (fun acc x => acc * 256 + x) b 0.

(** [x.Bytes()]: the big-endian bytes of [x], without leading zero bytes. *)
Fixpoint BytesFrom (fuel : nat) (x : Z) (acc : list Z) : list Z :=
  match fuel with
  | O => acc
  | S fuel' =>
      if x =? 0 then acc else BytesFrom fuel' (x / 256) (x mod 256 :: acc)
  end.
Definition Bytes (x : Z) : list Z :=
  BytesFrom (S (Z.to_nat (Z.log2 x))) x [].

(** [clamp] *)
Definition clamp (r : list Z) : list Z :=
  let r := set r 3 (Z.land (get r 3) 15) in
  let r := set r 7 (Z.land (get r 7) 15) in
  let r := set r 11 (Z.land (get r 11) 15) in
  let r := set r 15 (Z.land (get r 15) 15) in
  let r := set r 4 (Z.land (get r 4) 252) in
  let r := set r 8 (Z.land (get r 8) 252) in
  let r := set r 12 (Z.land (get r 12) 252) in
  r.

(** [NewPoly1305] *)
Definition NewPoly1305 (key : list Z) : Poly1305 :=
  let r := copy (repeat 0 16) 0 16 (slice key 0 16) in
  let r := clamp r in
  let rSlice := rev r in
  let rBigInt := SetBytes rSlice in
  let s := copy (repeat 0 16) 0 16 (slice key 16 32) in
  let sSlice := rev s in
  let sBigInt := SetBytes sSlice in
  let accum := 0 in
  mkPoly1305 accum rBigInt sBigInt.

(** One iteration of [for i := range numBlocks] in [GenerateTag]. *)
Definition tagStep (data : list Z) (p : Poly1305) (i : nat) : Poly1305 :=
  let block :=
    if ((i + 1) * BlockSize <? length data)%nat
    then slice data (i * BlockSize) ((i + 1) * BlockSize)
    else sliceFrom data (i * BlockSize) in
  let blockCopy := block in
  let blockCopy := blockCopy ++ [0x01] in
  let blockCopy := rev blockCopy in
  let n := SetBytes blockCopy in
  let accum := accum p + n in
  let accum := accum * r p in
  let accum := accum mod P in
  with_accum p accum.

(** [GenerateTag]: the tag and the instance after the call. *)
Definition GenerateTag (p : Poly1305) (data : list Z) : list Z * Poly1305 :=
  let numBlocks := ceilDiv (length data) BlockSize in
  let p := fold_left (tagStep data) (seq 0 numBlocks) p in
  let result := Bytes (accum p + s p) in
  let result :=
    if (length result <? 16)%nat
    then Nat.iter (16 - length result) (fun res => 0x00 :: res) result
    else result in
  let bytes := sliceFrom result (length result - 16) in
  let bytes := rev bytes in
  let tag := copy (repeat 0 16) 0 16 bytes in
  (tag, p).

End poly1305.

(** The loop shared by [poly1305KeyGen] and [GenerateSubKey]:
    [for i, word := range words { index := i*4 + off; result[index] =
    byte(word); ... result[index+3] = byte(word >> 24) }]. *)
Fixpoint putWords (words : list Z) (i off : nat) (result : list Z)
    : list Z :=
  match words with
  | [] => result
  | word :: rest =>
      let index := (i * 4 + off)%nat in
      let result := set result index (byte word) in
      let result := set result (index + 1) (byte (Z.shiftr word 8)) in
      let result := set result (index + 2) (byte (Z.shiftr word 16)) in
      let result := set result (index + 3) (byte (Z.shiftr word 24)) in
      putWords rest (S i) off result
  end.

(** ** Package chacha20poly1305 *)

Module chacha20poly1305.

Inductive error : Type := ErrInvalidTag.

Record ChaCha20Poly1305 : Type := mkChaCha20Poly1305 {
  key : list Z;
  nonce : list Z;
  chacha20 : chacha20.ChaCha20;
  poly1305 : poly1305.Poly1305
}.

(** [padTo16Bytes] *)
Definition padTo16Bytes (data : list Z) : list Z :=
  if (length data mod 16 =? 0)%nat then data
  else
    let result := data in
    let toPad := (16 - length data mod 16)%nat in
    Nat.iter toPad (fun res => res ++ [0x00]) result.

(** [binary.LittleEndian.PutUint32(b, v)]: writes [b[0..3]] only. *)
Definition PutUint32 (b : list Z) (v : Z) : list Z :=
  let b := set b 0 (byte v) in
  let b := set b 1 (byte (Z.shiftr v 8)) in
  let b := set b 2 (byte (Z.shiftr v 16)) in
  let b := set b 3 (byte (Z.shiftr v 24)) in
  b.

(** [generatePoly1305Input] *)
Definition generatePoly1305Input (aad ciphertext : list Z) : list Z :=
  let paddedAad := padTo16Bytes aad in
  let paddedCiphertext := padTo16Bytes ciphertext in
  let aadLength := repeat 0 8 in
  let aadLength := PutUint32 aadLength (uint32 (Z.of_nat (length aad))) in
  let cipertextLength := repeat 0 8 in
  let cipertextLength :=
    PutUint32 cipertextLength (uint32 (Z.of_nat (length ciphertext))) in
  let result := [] in
  let result := result ++ paddedAad in
  let result := result ++ paddedCiphertext in
  let result := result ++ aadLength in
  let result := result ++ cipertextLength in
  result.

(** [poly1305KeyGen(chacha20)]: the key and the cipher instance after the
    call. *)
Definition poly1305KeyGen (c : chacha20.ChaCha20)
    : list Z * chacha20.ChaCha20 :=
  let '(block, c) := chacha20.CreateBlock c in
  let result := repeat 0 32 in
  (putWords (slice block 0 8) 0 0 result, c).

(** Modelled from the spec: the exported [Poly1305KeyGen(firstBlock)] that
    package xchacha20poly1305 calls is not under src/; the spec says the
    first 32 bytes of the block are the Poly1305 key, which is the loop of
    [poly1305KeyGen] on a block already produced. *)
Definition Poly1305KeyGen (block : list Z) : list Z :=
  putWords (slice block 0 8) 0 0 (repeat 0 32).

(** Modelled from the spec: the exported [GeneratePoly1305Input] that package
    xchacha20poly1305 calls is not under src/; the spec keeps the framing
    of the two AEADs identical. *)
Definition GeneratePoly1305Input (aad ciphertext : list Z) : list Z :=
  generatePoly1305Input aad ciphertext.

(** [NewChaCha20Poly1305] *)
Definition NewChaCha20Poly1305 (key nonce : list Z) : ChaCha20Poly1305 :=
  let counter := [0x00; 0x00; 0x00; 0x00] in
  let cha := chacha20.NewChaCha20 key nonce counter in
  let '(polyKey, cha) := poly1305KeyGen cha in
  let poly := poly1305.NewPoly1305 polyKey in
  mkChaCha20Poly1305 key nonce cha poly.

(** The comparison [tag != computedTag] of two [[16]byte] arrays. *)
Definition tagsDiffer (tag computedTag : list Z) : bool :=
  negb (forallb (fun i => get tag i =? get computedTag i) (seq 0 16)).

(** [Encrypt]: ciphertext, tag and the instance after the call. *)
Definition Encrypt (c : ChaCha20Poly1305) (plaintext aad : list Z)
    : list Z * list Z * ChaCha20Poly1305 :=
  let '(ciphertext, cha) :=
    chacha20.XORWithKeyStream (chacha20 c) plaintext in
  let poly1305Input := generatePoly1305Input aad ciphertext in
  let '(tag, poly) := poly1305.GenerateTag (poly1305 c) poly1305Input in
  (ciphertext, tag, mkChaCha20Poly1305 (key c) (nonce c) cha poly).

(** [Decrypt]: the pair [(plaintext, err)] ([None] is [nil]) and the
    instance after the call. *)
Definition Decrypt (c : ChaCha20Poly1305) (ciphertext aad tag : list Z)
    : list Z * option error * ChaCha20Poly1305 :=
  let poly1305Input := generatePoly1305Input aad ciphertext in
  let '(computedTag, poly) :=
    poly1305.GenerateTag (poly1305 c) poly1305Input in
  if tagsDiffer tag computedTag then
    ([], Some ErrInvalidTag,
     mkChaCha20Poly1305 (key c) (nonce c) (chacha20 c) poly)
  else
    let '(plaintext, cha) :=
      chacha20.XORWithKeyStream (chacha20 c) ciphertext in
    (plaintext, None, mkChaCha20Poly1305 (key c) (nonce c) cha poly).

End chacha20poly1305.

(** ** Package xchacha20 *)

Module xchacha20.

Record HChaCha20 : Type := mkHChaCha20 {
  hchacha20 : chacha20.ChaCha20
}.

Record XChaCha20 : Type := mkXChaCha20 {
  chacha20 : chacha20.ChaCha20
}.

(** [NewHChaCha20] *)
Definition NewHChaCha20 (key nonce : list Z) : HChaCha20 :=
  let counter := slice nonce 0 4 in
  let slicedNonce := slice nonce 4 16 in
  mkHChaCha20 (chacha20.NewChaCha20 key slicedNonce counter).

(** Modelled from the spec: the method [ChaCha20.TwentyRounds] that
    [GenerateSubKey] calls is not under src/; the spec says HChaCha20 builds
    the same 16-word state as ChaCha20, runs the same 20 rounds (10 double
    rounds) and skips the feed-forward addition. *)
Definition TwentyRounds (s : chacha20.ChaCha20) : list Z :=
  let s :=
    chacha20.with_state s
      (chacha20.initState (chacha20.key s) (chacha20.nonce s)
         (chacha20.counter s)) in
  chacha20.state (Nat.iter 10 chacha20.doubleRound s).

(** [GenerateSubKey] *)
Definition GenerateSubKey (h : HChaCha20) : list Z :=
  let state := TwentyRounds (hchacha20 h) in
  let firstRow := slice state 0 4 in
  let lastRow := slice state 12 16 in
  let key := repeat 0 32 in
  let key := putWords firstRow 0 0 key in
  let key := putWords lastRow 0 16 key in
  key.

(** [NewXChaCha20] *)
Definition NewXChaCha20 (key nonce counter : list Z) : XChaCha20 :=
  let hChaChaNonce := slice nonce 0 16 in
  let hCha := NewHChaCha20 key hChaChaNonce in
  let subKey := GenerateSubKey hCha in
  let chaChaNonce := [0x00; 0x00; 0x00; 0x00] ++ slice nonce 16 24 in
  mkXChaCha20 (chacha20.NewChaCha20 subKey chaChaNonce counter).

(** [XChaCha20.XORWithKeyStream] *)
Definition XORWithKeyStream (x : XChaCha20) (data : list Z)
    : list Z * XChaCha20 :=
  let '(out, c) := chacha20.XORWithKeyStream (chacha20 x) data in
  (out, mkXChaCha20 c).

(** Modelled from the spec: the method [XChaCha20.CreateBlock] that
    [NewXChaCha20Poly1305] calls is not under src/; the spec says XChaCha20
    delegates directly to the underlying ChaCha20 core. *)
Definition CreateBlock (x : XChaCha20) : list Z * XChaCha20 :=
  let '(block, c) := chacha20.CreateBlock (chacha20 x) in
  (block, mkXChaCha20 c).

End xchacha20.

(** ** Package xchacha20poly1305 *)

Module xchacha20poly1305.

Record XChaCha20Poly1305 : Type := mkXChaCha20Poly1305 {
  xchacha20 : xchacha20.XChaCha20;
  poly1305 : poly1305.Poly1305
}.

(** [NewXChaCha20Poly1305] *)
Definition NewXChaCha20Poly1305 (key nonce : list Z) : XChaCha20Poly1305 :=
  let counter := [0x00; 0x00; 0x00; 0x00] in
  let xcha := xchacha20.NewXChaCha20 key nonce counter in
  let '(firstBlock, xcha) := xchacha20.CreateBlock xcha in
  let polyKey := chacha20poly1305.Poly1305KeyGen firstBlock in
  let poly := poly1305.NewPoly1305 polyKey in
  mkXChaCha20Poly1305 xcha poly.

(** [Encrypt] *)
Definition Encrypt (x : XChaCha20Poly1305) (plaintext aad : list Z)
    : list Z * list Z * XChaCha20Poly1305 :=
  let '(ciphertext, xcha) :=
    xchacha20.XORWithKeyStream (xchacha20 x) plaintext in
  let poly1305Input :=
    chacha20poly1305.GeneratePoly1305Input aad ciphertext in
  let '(tag, poly) := poly1305.GenerateTag (poly1305 x) poly1305Input in
  (ciphertext, tag, mkXChaCha20Poly1305 xcha poly).

(** [Decrypt] *)
Definition Decrypt (x : XChaCha20Poly1305) (ciphertext aad tag : list Z)
    : list Z * option chacha20poly1305.error * XChaCha20Poly1305 :=
  let poly1305Input :=
    chacha20poly1305.GeneratePoly1305Input aad ciphertext in
  let '(computedTag, poly) :=
    poly1305.GenerateTag (poly1305 x) poly1305Input in
  if chacha20poly1305.tagsDiffer tag computedTag then
    ([], Some chacha20poly1305.ErrInvalidTag,
     mkXChaCha20Poly1305 (xchacha20 x) poly)
  else
    let '(plaintext, xcha) :=
      xchacha20.XORWithKeyStream (xchacha20 x) ciphertext in
    (plaintext, None, mkXChaCha20Poly1305 xcha poly).

End xchacha20poly1305.

(** ** The behaviour the specification describes

    These definitions follow the wording of the specification; the theorems
    below compare them with the packages above. *)

Definition bytes_of_string (t : string) : list Z :=
  map (fun a => Z.of_N (N_of_ascii a)) (list_ascii_of_string t).

Module Spec.

(** A byte string read as a little-endian integer, and an integer
    serialized little-endian into [k] bytes. *)
Fixpoint le_int (l : list Z) : Z :=
  match l with
  | [] => 0
  | b :: t => b + 256 * le_int t
  end.

Fixpoint le_bytes (k : nat) (n : Z) : list Z :=
  match k with
  | O => []
  | S k' => n mod 256 :: le_bytes k' (n / 256)
  end.

(** Consecutive blocks of at most [bs] bytes. *)
Fixpoint chunks (fuel bs : nat) (l : list Z) : list (list Z) :=
  match fuel with
  | O => []
  | S fuel' =>
      match l with
      | [] => []
      | _ :: _ => firstn bs l :: chunks fuel' bs (skipn bs l)
      end
  end.
Definition blocks (bs : nat) (l : list Z) : list (list Z) :=
  chunks (length l) bs l.

(** The little-endian 32-bit words of a byte string, and back. *)
Definition words (l : list Z) : list Z := map le_int (blocks 4 l).
Definition word_bytes (ws : list Z) : list Z := flat_map (le_bytes 4) ws.

Definition zip_with (f : Z -> Z -> Z) (a b : list Z) : list Z :=
  map (fun p => f (fst p) (snd p)) (combine a b).

(** *** ChaCha20 *)

Definition constants : list Z := words (bytes_of_string "expand 32-byte k").

Definition add32 (a b : Z) : Z := (a + b) mod 2 ^ 32.
Definition rotl (x k : Z) : Z := (x * 2 ^ k) mod 2 ^ 32 + x / 2 ^ (32 - k).

(** [a+=b; d^=a; d=rotl(d,16); c+=d; b^=c; b=rotl(b,12); a+=b; d^=a;
    d=rotl(d,8); c+=d; b^=c; b=rotl(b,7)]. *)
Definition quarter (q : Z * Z * Z * Z) : Z * Z * Z * Z :=
  let '(a, b, c, d) := q in
  let a := add32 a b in let d := rotl (Z.lxor d a) 16 in
  let c := add32 c d in let b := rotl (Z.lxor b c) 12 in
  let a := add32 a b in let d := rotl (Z.lxor d a) 8 in
  let c := add32 c d in let b := rotl (Z.lxor b c) 7 in
  (a, b, c, d).

Definition quarter_at (st : list Z) (g : nat * nat * nat * nat) : list Z :=
  let '(x, y, z, w) := g in
  let '(a, b, c, d) := quarter (get st x, get st y, get st z, get st w) in
  set (set (set (set st x a) y b) z c) w d.

Definition column_groups : list (nat * nat * nat * nat) :=
  [(0, 4, 8, 12); (1, 5, 9, 13); (2, 6, 10, 14); (3, 7, 11, 15)]%nat.
Definition diagonal_groups : list (nat * nat * nat * nat) :=
  [(0, 5, 10, 15); (1, 6, 11, 12); (2, 7, 8, 13); (3, 4, 9, 14)]%nat.

Definition double_round (st : list Z) : list Z :=
  fold_left quarter_at diagonal_groups (fold_left quarter_at column_groups st).

(** 10 double rounds. *)
Definition permute (st : list Z) : list Z := Nat.iter 10 double_round st.

(** Constants, key words, counter word, nonce words. *)
Definition initial (key nonce : list Z) (counter : Z) : list Z :=
  constants ++ words key ++ [counter] ++ words nonce.

(** The block of (key, nonce, counter): permutation, then feed-forward. *)
Definition block (key nonce : list Z) (counter : Z) : list Z :=
  let s0 := initial key nonce counter in
  zip_with add32 (permute s0) s0.

(** *** HChaCha20: the 16-byte nonce fills the last four words; no
    feed-forward; words 0-3 then words 12-15. *)
Definition subkey (key nonce : list Z) : list Z :=
  let st := permute (constants ++ words key ++ words nonce) in
  word_bytes (firstn 4 st) ++ word_bytes (skipn 12 st).

(** *** Poly1305 *)

Definition prime : Z := 2 ^ 130 - 5.

(** Clear the top 4 bits of bytes 3, 7, 11, 15 and the bottom 2 bits of
    bytes 4, 8, 12. *)
Definition clear_top4 (b : Z) : Z := b mod 16.
Definition clear_bottom2 (b : Z) : Z := b - b mod 4.
Fixpoint clamp_from (i : nat) (l : list Z) : list Z :=
  match l with
  | [] => []
  | b :: t =>
      (if existsb (Nat.eqb i) [3; 7; 11; 15]%nat then clear_top4 b
       else if existsb (Nat.eqb i) [4; 8; 12]%nat then clear_bottom2 b
       else b) :: clamp_from (S i) t
  end.
Definition r_of (key : list Z) : Z := le_int (clamp_from 0 (firstn 16 key)).
Definition s_of (key : list Z) : Z := le_int (skipn 16 key).

(** [accumulator = ((accumulator + n) * r) mod (2^130 - 5)] over the blocks,
    [n] being the block with one byte 0x01 appended. *)
Definition accumulate (r acc : Z) (msg : list Z) : Z :=
  fold_left (fun a blk => ((a + le_int (blk ++ [1])) * r) mod prime)
    (blocks 16 msg) acc.

Definition tag_of (acc s : Z) : list Z := le_bytes 16 ((acc + s) mod 2 ^ 128).

Definition poly1305_tag (key msg : list Z) : list Z :=
  tag_of (accumulate (r_of key) 0 msg) (s_of key).

(** *** AEAD framing *)

Definition zero_pad (data : list Z) : list Z :=
  repeat 0 ((16 - length data mod 16) mod 16)%nat.

Definition auth_input (aad ciphertext : list Z) : list Z :=
  aad ++ zero_pad aad ++ ciphertext ++ zero_pad ciphertext
    ++ le_bytes 8 (Z.of_nat (length aad))
    ++ le_bytes 8 (Z.of_nat (length ciphertext)).

End Spec.

(** ** Auxiliary definitions of the proofs *)

(** The serialized blocks of [n] successive [CreateBlock] calls, and the
    instance after them. *)
Fixpoint createBlocks (n : nat) (c : chacha20.ChaCha20)
    : list Z * chacha20.ChaCha20 :=
  match n with
  | O => ([], c)
  | S n' =>
      let '(b, c1) := chacha20.CreateBlock c in
      let '(ks, c2) := createBlocks n' c1 in
      (Spec.word_bytes b ++ ks, c2)
  end.

(** [xorWords] seen on the part of the block not yet visited: whole groups of
    four bytes meet the keystream words from index [j] on. *)
Fixpoint xorFull (j : nat) (keyStream block : list Z) : list Z :=
  match block with
  | b0 :: b1 :: b2 :: b3 :: rest =>
      let word := get keyStream j in
      Z.lxor b0 (byte word) :: Z.lxor b1 (byte (Z.shiftr word 8))
        :: Z.lxor b2 (byte (Z.shiftr word 16))
        :: Z.lxor b3 (byte (Z.shiftr word 24))
        :: xorFull (S j) keyStream rest
  | _ => block
  end.

(** [quarterRoundAt] and [doubleRound] on the state array alone. *)
Definition qrAt (x y z w : nat) (st : list Z) : list Z :=
  let '(a, b, c, d) :=
    chacha20.quarterRound (get st x) (get st y) (get st z) (get st w) in
  set (set (set (set st x a) y b) z c) w d.

Definition dround (st : list Z) : list Z :=
  let st := qrAt 3 7 11 15 (qrAt 2 6 10 14 (qrAt 1 5 9 13 (qrAt 0 4 8 12 st))) in
  qrAt 3 4 9 14 (qrAt 2 7 8 13 (qrAt 1 6 11 12 (qrAt 0 5 10 15 st))).

(** The block [CreateBlock] computes from (key words, nonce words,
    counter). *)
Definition blockOf (key nonce : list Z) (counter : Z) : list Z :=
  let st0 := chacha20.initState key nonce counter in
  chacha20.addState st0 0 (Nat.iter 10 dround st0).

(** The reading of "the counter never silently wraps": no call returns all
    its bytes while the counter comes back below where it started. *)
Definition wraps (c : chacha20.ChaCha20) (data : list Z) : Prop :=
  length (fst (chacha20.XORWithKeyStream c data)) = length data
  /\ chacha20.counter (snd (chacha20.XORWithKeyStream c data))
     < chacha20.counter c.
Definition overflow_surfaced : Prop :=
  forall c data, is_word (chacha20.counter c) -> ~ wraps c data.

(** An associated-data buffer of 2^32 zero bytes (4 GiB). *)
Definition huge_aad : list Z := repeat 0 (Z.to_nat 4294967296).

(** ** Test data (RFC 8439 and draft-irtf-cfrg-xchacha) *)

Definition rfc_key : list Z := map Z.of_nat (seq 0 32).
Definition rfc_nonce : list Z := [0;0;0;9;0;0;0;0x4a;0;0;0;0].
Definition hchacha_nonce : list Z :=
  [0;0;0;9;0;0;0;0x4a;0;0;0;0;0x31;0x41;0x59;0x27].

Definition poly_key : list Z :=
  [0x85;0xd6;0xbe;0x78;0x57;0x55;0x6d;0x33;0x7f;0x44;0x52;0xfe;0x42;0xd5;0x06;0xa8;
   0x01;0x03;0x80;0x8a;0xfb;0x0d;0xb2;0xfd;0x4a;0xbf;0xf6;0xaf;0x41;0x49;0xf5;0x1b].
Definition poly_msg : list Z :=
  bytes_of_string "Cryptographic Forum Research Group".

Definition aead_key : list Z := map (fun i => 0x80 + Z.of_nat i) (seq 0 32).
Definition aead_nonce : list Z :=
  [0x07;0;0;0;0x40;0x41;0x42;0x43;0x44;0x45;0x46;0x47].
Definition xaead_nonce : list Z := map (fun i => 0x40 + Z.of_nat i) (seq 0 24).
Definition aead_aad : list Z :=
  [0x50;0x51;0x52;0x53;0xc0;0xc1;0xc2;0xc3;0xc4;0xc5;0xc6;0xc7].
Definition zero_tag : list Z := repeat 0 16.
Definition sunscreen : list Z := bytes_of_string
  "Ladies and Gentlemen of the class of '99: If I could offer you only one tip for the future, sunscreen would be it.".

(** ** The remaining functions of the repository *)

(** The earlier revision [poly1305KeyGen(key, nonce)] of package
    chacha20poly1305, which builds its own cipher instance at counter 0. *)
Definition poly1305KeyGen_key_nonce (key nonce : list Z) : list Z :=
  let counter := [0x00; 0x00; 0x00; 0x00] in
  let cha := chacha20.NewChaCha20 key nonce counter in
  let '(block, _) := chacha20.CreateBlock cha in
  let result := repeat 0 32 in
  putWords (slice block 0 8) 0 0 result.

(** [Mul], [Div] and [add] of package ctk (the package the programs
    also import as internal).  Go's [int] is taken as 64 bits wide, two's
    complement. *)
Module mathutil.

Inductive error : Type := ErrDivisionByZero.

(** The wrap-around of [int] arithmetic. *)
Definition int (x : Z) : Z := (x + 2 ^ 63) mod 2 ^ 64 - 2 ^ 63.

Definition add (a b : Z) : Z := int (a + b).

(** [for range a] runs [a] times, and not at all when [a <= 0]. *)
Definition Mul (a b : Z) : Z :=
  let result := 0 in
  Nat.iter (Z.to_nat a) (fun result => add result b) result.

(** [a / b] truncates toward zero. *)
Definition Div (a b : Z) : Z * option error :=
  if b =? 0 then (0, Some ErrDivisionByZero)
  else (int (Z.quot a b), None).

End mathutil.

(** The range of Go's [int]. *)
Definition is_int (x : Z) : Prop := - 2 ^ 63 <= x < 2 ^ 63.

(** The keystream bytes of [n] blocks from [counter] on, and the clamp of
    RFC 8439 as a mask. *)
Definition keystream (key nonce : list Z) (counter : Z) (n : nat) : list Z :=
  flat_map
    (fun j =>
       Spec.word_bytes
         (Spec.block key nonce ((counter + Z.of_nat j) mod 2 ^ 32)))
    (seq 0 n).

Definition clamp_mask : Z := 0x0ffffffc0ffffffc0ffffffc0fffffff.
Definition clamp_mask_bytes : list Z :=
  [255; 255; 255; 15; 252; 255; 255; 15; 252; 255; 255; 15; 252; 255; 255; 15].

(** The quarter round undone: the steps of [quarterRound] in reverse
    order, each addition replaced by a subtraction and each rotation to the
    left by [k] by one by [32 - k]. *)
Definition quarterRound_inv (a b c d : Z) : Z * Z * Z * Z :=
  let b := Z.lxor (RotateLeft32 b 25) c in
  let c := uint32 (c - d) in
  let d := Z.lxor (RotateLeft32 d 24) a in
  let a := uint32 (a - b) in
  let b := Z.lxor (RotateLeft32 b 20) c in
  let c := uint32 (c - d) in
  let d := Z.lxor (RotateLeft32 d 16) a in
  let a := uint32 (a - b) in
  (a, b, c, d).

Definition qrAt_inv (x y z w : nat) (st : list Z) : list Z :=
  let '(a, b, c, d) :=
    quarterRound_inv (get st x) (get st y) (get st z) (get st w) in
  set (set (set (set st x a) y b) z c) w d.

Definition dround_inv (st : list Z) : list Z :=
  let st :=
    qrAt_inv 0 5 10 15 (qrAt_inv 1 6 11 12 (qrAt_inv 2 7 8 13
      (qrAt_inv 3 4 9 14 st))) in
  qrAt_inv 0 4 8 12 (qrAt_inv 1 5 9 13 (qrAt_inv 2 6 10 14
    (qrAt_inv 3 7 11 15 st))).

(** * Proofs *)

#[local] Ltac Zify.zify_post_hook ::= Z.to_euclidean_division_equations.

(** ** Lists as Go arrays *)

Section ListFacts.

Lemma set_length (a : list Z) i v : length (set a i v) = length a.
Proof.
  revert i; induction a as [|h t IH]; intros [|i]; cbn; auto.
Qed.

Lemma get_set_eq (a : list Z) i v :
  (i < length a)%nat -> get (set a i v) i = v.
Proof.
  unfold get; revert i; induction a as [|h t IH]; intros [|i] H; cbn in *;
    try lia; auto.
  apply IH; lia.
Qed.

Lemma get_set_neq (a : list Z) i j v :
  i <> j -> get (set a i v) j = get a j.
Proof.
  unfold get; revert i j; induction a as [|h t IH]; intros [|i] [|j] H;
    cbn; auto; try congruence.
Qed.

Lemma set_app_r (pre l : list Z) k v :
  set (pre ++ l) (length pre + k) v = pre ++ set l k v.
Proof.
  induction pre as [|h t IH]; cbn; auto. now rewrite IH.
Qed.

Lemma get_app_r (pre l : list Z) k :
  get (pre ++ l) (length pre + k) = get l k.
Proof.
  unfold get. rewrite app_nth2 by lia. f_equal; lia.
Qed.

Lemma set_app_0 (pre l : list Z) v :
  set (pre ++ l) (length pre) v = pre ++ set l 0 v.
Proof. rewrite <- (Nat.add_0_r (length pre)) at 1. apply set_app_r. Qed.

Lemma get_app_0 (pre l : list Z) :
  get (pre ++ l) (length pre) = get l 0.
Proof. rewrite <- (Nat.add_0_r (length pre)) at 1. apply get_app_r. Qed.

Lemma set_Forall (Q : Z -> Prop) (a : list Z) i v :
  Forall Q a -> Q v -> Forall Q (set a i v).
Proof.
  intros Ha Hv; revert i; induction Ha; intros [|i]; cbn; auto.
Qed.

Lemma get_Forall (Q : Z -> Prop) (a : list Z) i :
  Forall Q a -> Q 0 -> Q (get a i).
Proof.
  intros Ha H0; unfold get.
  destruct (Nat.lt_ge_cases i (length a)) as [Hi|Hi].
  - rewrite Forall_forall in Ha; apply Ha, nth_In, Hi.
  - now rewrite nth_overflow.
Qed.

End ListFacts.

(** ** XORWithKeyStream: one block *)

Lemma xorFull_length j ks blk : length (xorFull j ks blk) = length blk.
Proof.
  remember (length blk) as n eqn:Hn.
  revert j blk Hn; induction n as [n IH] using lt_wf_ind; intros j blk Hn.
  destruct blk as [|b0 [|b1 [|b2 [|b3 rest]]]]; cbn [xorFull]; auto.
  cbn [length] in *. rewrite (IH (length rest)) with (blk := rest); lia.
Qed.

Lemma xorWords_app fuel ks : forall j pre blk,
  length pre = (4 * j)%nat -> (length blk <= fuel)%nat ->
  chacha20.xorWords fuel ks (length pre) (pre ++ blk)
  = pre ++ xorFull j ks blk.
Proof.
  induction fuel as [|fuel IH]; intros j pre blk Hpre Hfuel.
  - destruct blk; cbn in Hfuel; [reflexivity | lia].
  - cbn [chacha20.xorWords].
    destruct blk as [|b0 [|b1 [|b2 [|b3 rest]]]];
      try (replace (length pre + 4 <=? length (pre ++ _))%nat with false
             by (symmetry; apply Nat.leb_gt; rewrite length_app; cbn; lia);
           reflexivity).
    replace (length pre + 4 <=? length (pre ++ _))%nat with true
      by (symmetry; apply Nat.leb_le; rewrite length_app; cbn; lia).
    assert (Hj : Nat.shiftr (length pre) 2 = j).
    { rewrite Nat.shiftr_div_pow2, Hpre. change (2 ^ 2)%nat with 4%nat.
      rewrite Nat.mul_comm. apply Nat.div_mul. lia. }
    rewrite Hj.
    repeat (rewrite ?get_app_0, ?set_app_0, ?get_app_r, ?set_app_r;
            cbn [get set nth]).
    match goal with
    | |- chacha20.xorWords _ _ _ (pre ++ ?a :: ?b :: ?c :: ?d :: rest) = _ =>
        change (pre ++ a :: b :: c :: d :: rest)
          with (pre ++ [a; b; c; d] ++ rest);
        rewrite (app_assoc pre [a; b; c; d] rest);
        replace (length pre + 4)%nat with (length (pre ++ [a; b; c; d]))
          by (rewrite length_app; reflexivity);
        rewrite (IH (S j)) by (rewrite ?length_app; cbn in *; lia)
    end.
    rewrite <- app_assoc. reflexivity.
Qed.

Lemma land_124 n : (n < 128)%nat -> Nat.land n 124 = (4 * (n / 4))%nat.
Proof.
  intros H. do 128 (destruct n as [|n]; [reflexivity|]). lia.
Qed.

Lemma shiftr_8 x : Z.shiftr x 8 = x / 256.
Proof. now rewrite Z.shiftr_div_pow2 by lia. Qed.

Lemma shiftr_16 x : Z.shiftr x 16 = x / 256 / 256.
Proof.
  rewrite Z.shiftr_div_pow2 by lia. rewrite Z.div_div by lia. reflexivity.
Qed.

Lemma shiftr_24 x : Z.shiftr x 24 = x / 256 / 256 / 256.
Proof.
  rewrite Z.shiftr_div_pow2 by lia. rewrite !Z.div_div by lia. reflexivity.
Qed.

Lemma le_bytes_4 w :
  Spec.le_bytes 4 w
  = [byte w; byte (Z.shiftr w 8); byte (Z.shiftr w 16);
     byte (Z.shiftr w 24)].
Proof.
  rewrite shiftr_8, shiftr_16, shiftr_24. reflexivity.
Qed.

Lemma skipn_get_cons (ks : list Z) j :
  (j < length ks)%nat -> skipn j ks = get ks j :: skipn (S j) ks.
Proof.
  revert j; induction ks as [|h t IH]; intros [|j] H; cbn in *; try lia; auto.
  apply IH; lia.
Qed.

Lemma xorFull_tail n : forall j ks blk,
  length blk = n -> (length blk <= 4 * (length ks - j))%nat ->
  (if (4 * (length blk / 4) <? length blk)%nat
   then firstn (4 * (length blk / 4)) (xorFull j ks blk)
        ++ chacha20.xorRest (skipn (4 * (length blk / 4)) (xorFull j ks blk))
             (get ks (j + length blk / 4))
   else xorFull j ks blk)
  = Spec.zip_with Z.lxor blk (Spec.word_bytes (skipn j ks)).
Proof.
  induction n as [n IH] using lt_wf_ind; intros j ks blk Hn Hks.
  destruct blk as [|b0 [|b1 [|b2 [|b3 rest]]]].
  - reflexivity.
  - cbn [length] in Hks. rewrite (skipn_get_cons ks j) by lia.
    cbn [Spec.word_bytes flat_map]. rewrite le_bytes_4.
    cbn -[Z.shiftr Z.lxor byte]. rewrite Nat.add_0_r. reflexivity.
  - cbn [length] in Hks. rewrite (skipn_get_cons ks j) by lia.
    cbn [Spec.word_bytes flat_map]. rewrite le_bytes_4.
    cbn -[Z.shiftr Z.lxor byte]. rewrite Nat.add_0_r. reflexivity.
  - cbn [length] in Hks. rewrite (skipn_get_cons ks j) by lia.
    cbn [Spec.word_bytes flat_map]. rewrite le_bytes_4.
    cbn -[Z.shiftr Z.lxor byte]. rewrite Nat.add_0_r, shiftr_16, !shiftr_8.
    reflexivity.
  - cbn [length] in Hks, Hn.
    assert (Hj : (j < length ks)%nat) by lia.
    rewrite (skipn_get_cons ks j Hj).
    cbn [Spec.word_bytes flat_map]. rewrite le_bytes_4.
    assert (H1 : (length rest < n)%nat) by lia.
    assert (H2 : (length rest <= 4 * (length ks - S j))%nat) by lia.
    specialize (IH (length rest) H1 (S j) ks rest eq_refl H2).
    change (flat_map (Spec.le_bytes 4) (skipn (S j) ks))
      with (Spec.word_bytes (skipn (S j) ks)).
    set (K := Spec.word_bytes (skipn (S j) ks)) in *. clearbody K.
    cbn [xorFull length].
    replace (S (S (S (S (length rest)))) / 4)%nat
      with (S (length rest / 4)) by lia.
    replace (4 * S (length rest / 4))%nat
      with (S (S (S (S (4 * (length rest / 4)))))) by lia.
    cbn [firstn skipn].
    replace (j + S (length rest / 4))%nat
      with (S j + length rest / 4)%nat by lia.
    change (S (S (S (S (4 * (length rest / 4))))) <?
            S (S (S (S (length rest)))))%nat
      with (4 * (length rest / 4) <? length rest)%nat.
    unfold Spec.zip_with in *. cbn [app combine map fst snd].
    rewrite <- IH.
    destruct (4 * (length rest / 4) <? length rest)%nat; reflexivity.
Qed.

Lemma xorBlock_spec ks block :
  (length block <= 4 * length ks)%nat -> (length block < 128)%nat ->
  chacha20.xorBlock ks block
  = Spec.zip_with Z.lxor block (Spec.word_bytes ks).
Proof.
  intros Hks Hlen. unfold chacha20.xorBlock.
  change (chacha20.xorWords (length block) ks 0 block)
    with (chacha20.xorWords (length block) ks (length (@nil Z)) ([] ++ block)).
  rewrite (xorWords_app _ ks 0 [] block) by (cbn; lia).
  cbn [app]. rewrite xorFull_length, land_124 by assumption.
  unfold sliceFrom.
  rewrite Nat.shiftr_div_pow2. change (2 ^ 2)%nat with 4%nat.
  replace (4 * (length block / 4) / 4)%nat with (0 + length block / 4)%nat
    by (rewrite Nat.mul_comm, Nat.div_mul; lia).
  rewrite (xorFull_tail (length block) 0 ks block eq_refl) by lia.
  reflexivity.
Qed.

(** ** CreateBlock *)

Lemma copy_length (dst src : list Z) lo hi :
  (lo <= hi)%nat -> (hi <= length dst)%nat ->
  length (copy dst lo hi src) = length dst.
Proof.
  intros H1 H2. unfold copy.
  rewrite !length_app, !length_firstn, length_skipn. lia.
Qed.

Lemma initState_length k n c : length (chacha20.initState k n c) = 16%nat.
Proof.
  unfold chacha20.initState.
  assert (H0 : length (repeat 0 16) = 16%nat) by apply repeat_length.
  set (st0 := repeat 0 16) in *.
  assert (H1 : length (copy st0 0 4 [0x61707865; 0x3320646e; 0x79622d32;
                                     0x6b206574]) = 16%nat)
    by (rewrite copy_length; lia).
  set (st1 := copy st0 0 4 _) in *.
  assert (H2 : length (copy st1 4 12 k) = 16%nat)
    by (rewrite copy_length; lia).
  set (st2 := copy st1 4 12 k) in *.
  rewrite copy_length; rewrite ?set_length; lia.
Qed.

Lemma qrAt_length x y z w st : length (qrAt x y z w st) = length st.
Proof.
  unfold qrAt. destruct (chacha20.quarterRound _ _ _ _) as [[[a b] c] d].
  now rewrite !set_length.
Qed.

Lemma dround_length st : length (dround st) = length st.
Proof. unfold dround. now rewrite !qrAt_length. Qed.

Lemma iter_dround_length n st : length (Nat.iter n dround st) = length st.
Proof.
  induction n as [|n IH]; [reflexivity|].
  now rewrite (Nat.iter_succ n _ dround), dround_length.
Qed.

Lemma addState_length old : forall i st,
  length (chacha20.addState old i st) = length st.
Proof.
  induction old as [|v old IH]; intros i st; cbn [chacha20.addState]; auto.
  now rewrite IH, set_length.
Qed.

Lemma blockOf_length k n c : length (blockOf k n c) = 16%nat.
Proof.
  unfold blockOf.
  now rewrite addState_length, iter_dround_length, initState_length.
Qed.

Lemma quarterRoundAt_qrAt x y z w c k n st :
  chacha20.quarterRoundAt x y z w (chacha20.mkChaCha20 c k n st)
  = chacha20.mkChaCha20 c k n (qrAt x y z w st).
Proof.
  unfold chacha20.quarterRoundAt, qrAt, chacha20.with_state.
  cbn [chacha20.state chacha20.key chacha20.nonce chacha20.counter].
  destruct (chacha20.quarterRound _ _ _ _) as [[[a b] c'] d]. reflexivity.
Qed.

Lemma doubleRound_dround s :
  chacha20.doubleRound s
  = chacha20.with_state s (dround (chacha20.state s)).
Proof.
  destruct s as [c k n st].
  unfold chacha20.doubleRound, chacha20.diagonalRound, chacha20.columnRound.
  rewrite (quarterRoundAt_qrAt 0 4 8 12), (quarterRoundAt_qrAt 1 5 9 13),
    (quarterRoundAt_qrAt 2 6 10 14), (quarterRoundAt_qrAt 3 7 11 15),
    (quarterRoundAt_qrAt 0 5 10 15), (quarterRoundAt_qrAt 1 6 11 12),
    (quarterRoundAt_qrAt 2 7 8 13), (quarterRoundAt_qrAt 3 4 9 14).
  unfold dround, chacha20.with_state.
  cbn [chacha20.state chacha20.key chacha20.nonce chacha20.counter].
  reflexivity.
Qed.

Lemma iter_doubleRound n s :
  Nat.iter n chacha20.doubleRound s
  = chacha20.with_state s (Nat.iter n dround (chacha20.state s)).
Proof.
  induction n as [|n IH].
  - now destruct s.
  - rewrite (Nat.iter_succ n _ chacha20.doubleRound), IH, doubleRound_dround.
    rewrite (Nat.iter_succ n _ dround). reflexivity.
Qed.

Lemma CreateBlock_unfold s :
  chacha20.CreateBlock s
  = (blockOf (chacha20.key s) (chacha20.nonce s) (chacha20.counter s),
     chacha20.mkChaCha20 (uint32 (chacha20.counter s + 1))
       (chacha20.key s) (chacha20.nonce s)
       (blockOf (chacha20.key s) (chacha20.nonce s) (chacha20.counter s))).
Proof.
  unfold chacha20.CreateBlock. rewrite iter_doubleRound. reflexivity.
Qed.

(** ** XORWithKeyStream: the whole loop *)

Lemma word_bytes_length ws :
  length (Spec.word_bytes ws) = (4 * length ws)%nat.
Proof.
  induction ws as [|w ws IH]; auto.
  unfold Spec.word_bytes in *; cbn [flat_map].
  rewrite length_app, IH. cbn [Spec.le_bytes length]. lia.
Qed.

Lemma zip_with_length f a b :
  length (Spec.zip_with f a b) = Nat.min (length a) (length b).
Proof. unfold Spec.zip_with. now rewrite length_map, length_combine. Qed.

Lemma zip_with_app f a1 a2 b1 b2 :
  length a1 = length b1 ->
  Spec.zip_with f (a1 ++ a2) (b1 ++ b2)
  = Spec.zip_with f a1 b1 ++ Spec.zip_with f a2 b2.
Proof.
  revert b1; induction a1 as [|x a1 IH]; intros [|y b1] H; cbn [length] in H;
    try discriminate; [reflexivity|].
  unfold Spec.zip_with in *. cbn [app combine map].
  f_equal. apply IH. congruence.
Qed.

Lemma createBlocks_S n c :
  createBlocks (S n) c
  = (Spec.word_bytes (fst (chacha20.CreateBlock c))
       ++ fst (createBlocks n (snd (chacha20.CreateBlock c))),
     snd (createBlocks n (snd (chacha20.CreateBlock c)))).
Proof.
  cbn [createBlocks]. destruct (chacha20.CreateBlock c) as [b c1].
  cbn [fst snd]. now destruct (createBlocks n c1).
Qed.

Lemma xor_loop m : forall i pre rest c,
  length pre = (i * 64)%nat -> ceilDiv (length rest) 64 = m ->
  fold_left (chacha20.xorStep (length pre + length rest)) (seq i m)
    (pre ++ rest, c)
  = (pre ++ Spec.zip_with Z.lxor rest (fst (createBlocks m c)),
     snd (createBlocks m c)).
Proof.
  induction m as [|m IH]; intros i pre rest c Hpre Hm; unfold ceilDiv in Hm.
  - assert (rest = []) by (destruct rest; cbn [length] in Hm; [auto | lia]).
    subst rest. reflexivity.
  - rewrite createBlocks_S. cbn [seq fold_left fst snd].
    unfold chacha20.xorStep at 2.
    rewrite CreateBlock_unfold. cbn [fst snd].
    set (ks := blockOf _ _ _). set (c1 := chacha20.mkChaCha20 _ _ _ _).
    assert (Hks : length ks = 16%nat) by apply blockOf_length.
    unfold chacha20.BlockSize, slice.
    rewrite <- Hpre.
    rewrite skipn_app, skipn_all, Nat.sub_diag, firstn_app, firstn_all,
      Nat.sub_diag. cbn [skipn firstn app]. rewrite app_nil_r.
    destruct ((i + 1) * 64 <? length pre + length rest)%nat eqn:E.
    + apply Nat.ltb_lt in E.
      replace ((i + 1) * 64 - length pre)%nat with 64%nat by lia.
      replace ((i + 1) * 64)%nat with (length pre + 64)%nat by lia.
      rewrite skipn_app, (skipn_all2 pre) by lia.
      replace (length pre + 64 - length pre)%nat with 64%nat by lia.
      cbn [app].
      rewrite xorBlock_spec by (rewrite length_firstn; lia).
      rewrite app_assoc.
      set (pre' := pre ++ Spec.zip_with Z.lxor (firstn 64 rest) _).
      assert (Hpre' : length pre' = (S i * 64)%nat).
      { unfold pre'. rewrite length_app, zip_with_length, length_firstn,
          word_bytes_length. lia. }
      replace (length pre + length rest)%nat
        with (length pre' + length (skipn 64 rest))%nat
        by (rewrite Hpre', length_skipn; lia).
      rewrite (IH (S i) pre' (skipn 64 rest) c1 Hpre')
        by (unfold ceilDiv; rewrite length_skipn; lia).
      unfold pre'. rewrite <- app_assoc. f_equal. f_equal.
      rewrite <- (firstn_skipn 64 rest) at 3.
      apply eq_sym, zip_with_app.
      rewrite length_firstn, word_bytes_length. lia.
    + apply Nat.ltb_ge in E.
      assert (m = 0%nat) by lia. subst m.
      rewrite length_app.
      replace (length pre + length rest - length pre)%nat
        with (length rest) by lia.
      rewrite firstn_all, skipn_all2 by (rewrite length_app; lia).
      rewrite xorBlock_spec by lia.
      cbn [seq fold_left createBlocks fst]. now rewrite !app_nil_r.
Qed.

Lemma XORWithKeyStream_spec c data :
  chacha20.XORWithKeyStream c data
  = (Spec.zip_with Z.lxor data
       (fst (createBlocks (ceilDiv (length data) 64) c)),
     snd (createBlocks (ceilDiv (length data) 64) c)).
Proof.
  unfold chacha20.XORWithKeyStream, chacha20.BlockSize.
  apply (xor_loop _ 0 [] data c); reflexivity.
Qed.

(** ** Successive blocks *)

Lemma CreateBlock_ext c1 c2 :
  chacha20.key c1 = chacha20.key c2 ->
  chacha20.nonce c1 = chacha20.nonce c2 ->
  chacha20.counter c1 = chacha20.counter c2 ->
  chacha20.CreateBlock c1 = chacha20.CreateBlock c2.
Proof.
  intros Hk Hn Hc. rewrite !CreateBlock_unfold, Hk, Hn, Hc. reflexivity.
Qed.

Lemma createBlocks_ext n c1 c2 :
  chacha20.key c1 = chacha20.key c2 ->
  chacha20.nonce c1 = chacha20.nonce c2 ->
  chacha20.counter c1 = chacha20.counter c2 ->
  fst (createBlocks n c1) = fst (createBlocks n c2).
Proof.
  intros Hk Hn Hc. destruct n as [|n]; [reflexivity|].
  rewrite !createBlocks_S, (CreateBlock_ext c1 c2 Hk Hn Hc). reflexivity.
Qed.

Lemma createBlocks_length n : forall c,
  length (fst (createBlocks n c)) = (64 * n)%nat.
Proof.
  induction n as [|n IH]; intros c; [reflexivity|].
  rewrite createBlocks_S. cbn [fst].
  rewrite length_app, word_bytes_length, IH, CreateBlock_unfold. cbn [fst].
  rewrite blockOf_length. lia.
Qed.

Lemma createBlocks_fields n : forall c,
  chacha20.key (snd (createBlocks n c)) = chacha20.key c
  /\ chacha20.nonce (snd (createBlocks n c)) = chacha20.nonce c.
Proof.
  induction n as [|n IH]; intros c; [split; reflexivity|].
  rewrite createBlocks_S. cbn [snd].
  destruct (IH (snd (chacha20.CreateBlock c))) as [Hk Hn].
  rewrite Hk, Hn, CreateBlock_unfold. split; reflexivity.
Qed.

Lemma uint32_word x : is_word (uint32 x).
Proof. unfold is_word, uint32. apply Z.mod_pos_bound. lia. Qed.

Lemma createBlocks_counter n : forall c,
  is_word (chacha20.counter c) ->
  chacha20.counter (snd (createBlocks n c))
  = (chacha20.counter c + Z.of_nat n) mod 2 ^ 32.
Proof.
  induction n as [|n IH]; intros c Hc.
  - cbn [createBlocks snd Z.of_nat]. rewrite Z.add_0_r.
    symmetry; apply Z.mod_small, Hc.
  - rewrite createBlocks_S. cbn [snd]. rewrite IH.
    + rewrite CreateBlock_unfold. cbn [snd chacha20.counter]. unfold uint32.
      rewrite Zplus_mod_idemp_l. f_equal. lia.
    + rewrite CreateBlock_unfold. cbn [snd chacha20.counter].
      apply uint32_word.
Qed.

Lemma zip_lxor_involutive : forall d ks,
  (length d <= length ks)%nat ->
  Spec.zip_with Z.lxor (Spec.zip_with Z.lxor d ks) ks = d.
Proof.
  unfold Spec.zip_with.
  induction d as [|x d IH]; intros [|k ks] H; cbn [length] in H;
    try reflexivity; try lia.
  cbn [combine map fst snd]. rewrite IH by lia.
  rewrite Z.lxor_assoc, Z.lxor_nilpotent, Z.lxor_0_r. reflexivity.
Qed.

Lemma zip_with_firstn f : forall d ks,
  Spec.zip_with f d ks = Spec.zip_with f d (firstn (length d) ks).
Proof.
  unfold Spec.zip_with.
  induction d as [|x d IH]; intros [|k ks]; try reflexivity.
  cbn [length firstn combine map]. now rewrite <- IH.
Qed.

Lemma ceilDiv_64_covers n : (n <= 64 * ceilDiv n 64)%nat.
Proof. unfold ceilDiv. lia. Qed.

Lemma XORWithKeyStream_length c data :
  length (fst (chacha20.XORWithKeyStream c data)) = length data.
Proof.
  rewrite XORWithKeyStream_spec. cbn [fst].
  rewrite zip_with_length, createBlocks_length.
  pose proof (ceilDiv_64_covers (length data)). lia.
Qed.

Lemma XORWithKeyStream_twice c1 c2 data :
  chacha20.key c2 = chacha20.key c1 ->
  chacha20.nonce c2 = chacha20.nonce c1 ->
  chacha20.counter c2 = chacha20.counter c1 ->
  fst (chacha20.XORWithKeyStream c2
         (fst (chacha20.XORWithKeyStream c1 data))) = data.
Proof.
  intros Hk Hn Hc.
  rewrite (XORWithKeyStream_spec c2), XORWithKeyStream_length. cbn [fst].
  rewrite (createBlocks_ext _ c2 c1 Hk Hn Hc), XORWithKeyStream_spec.
  cbn [fst]. apply zip_lxor_involutive.
  rewrite createBlocks_length. apply ceilDiv_64_covers.
Qed.

(** ** Little-endian integers *)

Lemma le_bytes_length k : forall n, length (Spec.le_bytes k n) = k.
Proof. induction k as [|k IH]; intros n; cbn [Spec.le_bytes length]; auto. Qed.

Lemma le_bytes_ok k : forall n, bytes_ok (Spec.le_bytes k n).
Proof.
  induction k as [|k IH]; intros n; constructor; [|apply IH].
  unfold is_byte. apply Z.mod_pos_bound. lia.
Qed.

Lemma le_bytes_zero k : Spec.le_bytes k 0 = repeat 0 k.
Proof.
  induction k as [|k IH]; [reflexivity|].
  cbn [Spec.le_bytes repeat]. now rewrite Zdiv_0_l, Zmod_0_l, IH.
Qed.

Lemma le_bytes_app k j : forall n,
  Spec.le_bytes (k + j) n
  = Spec.le_bytes k n ++ Spec.le_bytes j (n / 256 ^ Z.of_nat k).
Proof.
  induction k as [|k IH]; intros n.
  - cbn [Nat.add Spec.le_bytes app Z.of_nat]. now rewrite Z.pow_0_r, Z.div_1_r.
  - cbn [Nat.add Spec.le_bytes app]. rewrite IH. do 3 f_equal.
    rewrite Nat2Z.inj_succ, Z.pow_succ_r by lia.
    rewrite Z.div_div by lia. reflexivity.
Qed.

Lemma le_bytes_small k j n :
  0 <= n < 256 ^ Z.of_nat k ->
  Spec.le_bytes (k + j) n = Spec.le_bytes k n ++ repeat 0 j.
Proof.
  intros H. rewrite le_bytes_app, Z.div_small, le_bytes_zero by assumption.
  reflexivity.
Qed.

Lemma le_bytes_mod k : forall n,
  Spec.le_bytes k (n mod 256 ^ Z.of_nat k) = Spec.le_bytes k n.
Proof.
  induction k as [|k IH]; intros n; [reflexivity|].
  cbn [Spec.le_bytes].
  rewrite Nat2Z.inj_succ, Z.pow_succ_r by lia.
  assert (Hpos : 0 < 256 ^ Z.of_nat k) by (apply Z.pow_pos_nonneg; lia).
  rewrite Z.rem_mul_r by lia.
  f_equal.
  - rewrite (Z.mul_comm 256), Z_mod_plus_full. apply Z.mod_mod. lia.
  - rewrite (Z.mul_comm 256), Z.div_add by lia.
    rewrite (Z.div_small (n mod 256)) by (apply Z.mod_pos_bound; lia).
    rewrite Z.add_0_l. apply IH.
Qed.

Lemma le_int_app a b :
  Spec.le_int (a ++ b)
  = Spec.le_int a + 256 ^ Z.of_nat (length a) * Spec.le_int b.
Proof.
  induction a as [|x a IH]; cbn [app Spec.le_int length].
  - cbn [Z.of_nat]. lia.
  - rewrite IH, Nat2Z.inj_succ, Z.pow_succ_r by lia. lia.
Qed.

Lemma SetBytes_rev l : poly1305.SetBytes (rev l) = Spec.le_int l.
Proof.
  unfold poly1305.SetBytes.
  induction l as [|x l IH]; cbn [rev Spec.le_int]; [reflexivity|].
  rewrite fold_left_app. cbn [fold_left]. rewrite IH. lia.
Qed.

(** ** big.Int.Bytes *)

Lemma BytesFrom_spec fuel : forall x acc,
  0 <= x < 2 ^ Z.of_nat fuel ->
  exists k, poly1305.BytesFrom fuel x acc = rev (Spec.le_bytes k x) ++ acc
            /\ x < 256 ^ Z.of_nat k.
Proof.
  induction fuel as [|fuel IH]; intros x acc Hx.
  - exists 0%nat. cbn in *. split; [reflexivity | lia].
  - cbn [poly1305.BytesFrom]. destruct (x =? 0) eqn:E.
    + apply Z.eqb_eq in E. subst x. exists 0%nat. split; [reflexivity|].
      cbn. lia.
    + apply Z.eqb_neq in E.
      rewrite Nat2Z.inj_succ, Z.pow_succ_r in Hx by lia.
      assert (Hp : 0 < 2 ^ Z.of_nat fuel) by (apply Z.pow_pos_nonneg; lia).
      destruct (IH (x / 256) (x mod 256 :: acc)) as [k [Hk Hb]]; [lia|].
      exists (S k). split.
      * rewrite Hk. cbn [Spec.le_bytes rev]. now rewrite <- app_assoc.
      * rewrite Nat2Z.inj_succ, Z.pow_succ_r by lia.
        assert (0 < 256 ^ Z.of_nat k) by (apply Z.pow_pos_nonneg; lia). lia.
Qed.

Lemma Bytes_spec x :
  0 <= x ->
  exists k, poly1305.Bytes x = rev (Spec.le_bytes k x)
            /\ x < 256 ^ Z.of_nat k.
Proof.
  intros Hx. unfold poly1305.Bytes.
  destruct (BytesFrom_spec (S (Z.to_nat (Z.log2 x))) x []) as [k [Hk Hb]].
  - split; [assumption|].
    rewrite Nat2Z.inj_succ, Z2Nat.id by apply Z.log2_nonneg.
    destruct (Z.eq_dec x 0) as [->|Hn]; [cbn; lia|].
    apply Z.log2_spec. lia.
  - exists k. now rewrite app_nil_r in Hk.
Qed.

Lemma iter_cons_zero n (l : list Z) :
  Nat.iter n (fun res => 0 :: res) l = repeat 0 n ++ l.
Proof.
  induction n as [|n IH]; [reflexivity|].
  rewrite (Nat.iter_succ n _ (fun res : list Z => 0 :: res)), IH. reflexivity.
Qed.

Lemma rev_repeat_zero n : rev (repeat 0 n) = repeat 0 n.
Proof.
  induction n as [|n IH]; [reflexivity|].
  cbn [repeat rev]. rewrite IH. symmetry. apply (repeat_cons n 0).
Qed.

Lemma copy_full16 (b : list Z) :
  length b = 16%nat -> copy (repeat 0 16) 0 16 b = b.
Proof.
  intros H. unfold copy. rewrite H.
  change (Nat.min (16 - 0) 16) with 16%nat.
  rewrite (firstn_all2 b) by lia.
  change (skipn (0 + 16) (repeat 0 16)) with (@nil Z).
  cbn [firstn app]. apply app_nil_r.
Qed.

(** The serialization at the end of [GenerateTag]. *)
Lemma tag_bytes x :
  0 <= x ->
  (let result := poly1305.Bytes x in
   let result :=
     if (length result <? 16)%nat
     then Nat.iter (16 - length result) (fun res => 0 :: res) result
     else result in
   copy (repeat 0 16) 0 16 (rev (sliceFrom result (length result - 16))))
  = Spec.le_bytes 16 (x mod 2 ^ 128).
Proof.
  intros Hx. cbv zeta.
  destruct (Bytes_spec x Hx) as [k [Hk Hb]]. rewrite Hk.
  rewrite length_rev, le_bytes_length.
  assert (Hall : exists K,
    (16 <= K)%nat /\
    (if (k <? 16)%nat
     then Nat.iter (16 - k) (fun res => 0 :: res) (rev (Spec.le_bytes k x))
     else rev (Spec.le_bytes k x)) = rev (Spec.le_bytes K x)).
  { destruct (k <? 16)%nat eqn:E.
    - apply Nat.ltb_lt in E. exists 16%nat. split; [lia|].
      rewrite iter_cons_zero.
      replace 16%nat with (k + (16 - k))%nat at 2 by lia.
      rewrite le_bytes_small by lia.
      now rewrite rev_app_distr, rev_repeat_zero.
    - apply Nat.ltb_ge in E. exists k. split; [lia | reflexivity]. }
  destruct Hall as [K [HK ->]].
  rewrite length_rev, le_bytes_length. unfold sliceFrom.
  rewrite skipn_rev, rev_involutive, le_bytes_length.
  replace (K - (K - 16))%nat with 16%nat by lia.
  replace K with (16 + (K - 16))%nat by lia.
  rewrite le_bytes_app, firstn_app, le_bytes_length, Nat.sub_diag.
  rewrite firstn_O, app_nil_r.
  rewrite firstn_all2 by (rewrite le_bytes_length; lia).
  rewrite copy_full16 by apply le_bytes_length.
  symmetry. apply (le_bytes_mod 16).
Qed.

(** ** GenerateTag *)

Lemma P_prime : poly1305.P = Spec.prime.
Proof. reflexivity. Qed.

Lemma chunks_nil fuel bs : Spec.chunks fuel bs [] = [].
Proof. now destruct fuel. Qed.

Lemma with_accum_id p : poly1305.with_accum p (poly1305.accum p) = p.
Proof. now destruct p. Qed.

Lemma poly_loop m : forall fuel i pre rest p,
  (m <= fuel)%nat -> (rest <> [] -> length pre = (i * 16)%nat) ->
  ceilDiv (length rest) 16 = m ->
  fold_left (poly1305.tagStep (pre ++ rest)) (seq i m) p
  = poly1305.with_accum p
      (fold_left
         (fun a blk =>
            ((a + Spec.le_int (blk ++ [1])) * poly1305.r p) mod Spec.prime)
         (Spec.chunks fuel 16 rest) (poly1305.accum p)).
Proof.
  induction m as [|m IH]; intros fuel i pre rest p Hfuel Hpre Hm;
    unfold ceilDiv in Hm.
  - assert (rest = []) by (destruct rest; cbn [length] in Hm; [auto | lia]).
    subst rest. rewrite chunks_nil. cbn [seq fold_left].
    symmetry; apply with_accum_id.
  - destruct fuel as [|fuel]; [lia|].
    destruct rest as [|b rest0] eqn:Erest; [cbn [length] in Hm; lia|].
    rewrite <- Erest in *. cbn [seq fold_left].
    assert (Hpre' : length pre = (i * 16)%nat)
      by (apply Hpre; rewrite Erest; discriminate).
    clear Hpre. rename Hpre' into Hpre.
    assert (Hblock :
      (if ((i + 1) * poly1305.BlockSize <? length (pre ++ rest))%nat
       then slice (pre ++ rest) (i * poly1305.BlockSize)
              ((i + 1) * poly1305.BlockSize)
       else sliceFrom (pre ++ rest) (i * poly1305.BlockSize))
      = firstn 16 rest).
    { unfold poly1305.BlockSize, slice, sliceFrom. rewrite <- Hpre.
      rewrite skipn_app, skipn_all, Nat.sub_diag. cbn [skipn app].
      rewrite length_app.
      destruct ((i + 1) * 16 <? length pre + length rest)%nat eqn:E.
      - f_equal. lia.
      - apply Nat.ltb_ge in E. symmetry. apply firstn_all2. lia. }
    unfold poly1305.tagStep at 2. rewrite Hblock, SetBytes_rev, P_prime.
    set (a1 := ((poly1305.accum p + Spec.le_int (firstn 16 rest ++ [1]))
                * poly1305.r p) mod Spec.prime).
    rewrite <- (firstn_skipn 16 rest) at 1. rewrite app_assoc.
    rewrite (IH fuel (S i) (pre ++ firstn 16 rest) (skipn 16 rest)
               (poly1305.with_accum p a1)).
    + rewrite Erest at 2. cbn [Spec.chunks fold_left]. rewrite <- Erest.
      fold a1. reflexivity.
    + lia.
    + intros Hne. rewrite length_app, length_firstn.
      destruct (Nat.le_gt_cases (length rest) 16) as [Hle|Hgt]; [|lia].
      exfalso; apply Hne, skipn_all2, Hle.
    + unfold ceilDiv. rewrite length_skipn. lia.
Qed.

Lemma GenerateTag_accum p data :
  snd (poly1305.GenerateTag p data)
  = poly1305.with_accum p
      (Spec.accumulate (poly1305.r p) (poly1305.accum p) data).
Proof.
  unfold poly1305.GenerateTag, poly1305.BlockSize. cbn [snd].
  apply (poly_loop _ (length data) 0 [] data p); try reflexivity.
  unfold ceilDiv. lia.
Qed.

Lemma accumulate_nonneg r acc data :
  0 <= acc -> 0 <= Spec.accumulate r acc data.
Proof.
  unfold Spec.accumulate, Spec.blocks.
  generalize (length data) as fuel. intros fuel; revert data acc.
  induction fuel as [|fuel IH]; intros data acc Hacc; [exact Hacc|].
  destruct data as [|b data]; [exact Hacc|].
  cbn [Spec.chunks fold_left]. apply IH.
  apply Z.mod_pos_bound. reflexivity.
Qed.

Lemma GenerateTag_tag p data :
  0 <= poly1305.accum p -> 0 <= poly1305.s p ->
  fst (poly1305.GenerateTag p data)
  = Spec.tag_of (Spec.accumulate (poly1305.r p) (poly1305.accum p) data)
      (poly1305.s p).
Proof.
  intros Ha Hs.
  pose proof (GenerateTag_accum p data) as Hacc.
  unfold poly1305.GenerateTag in *. cbn [fst snd] in *. rewrite Hacc.
  cbn [poly1305.accum poly1305.s poly1305.with_accum].
  apply tag_bytes.
  pose proof (accumulate_nonneg (poly1305.r p) _ data Ha). lia.
Qed.

Lemma GenerateTag_length p data :
  length (fst (poly1305.GenerateTag p data)) = 16%nat.
Proof.
  unfold poly1305.GenerateTag. cbn [fst].
  apply copy_length; rewrite ?repeat_length; lia.
Qed.

(** ** NewPoly1305 and clamp *)

Lemma byte_cases (Q : Z -> bool) :
  forallb Q (map Z.of_nat (seq 0 256)) = true ->
  forall b, is_byte b -> Q b = true.
Proof.
  intros H b Hb. rewrite forallb_forall in H. apply H.
  apply in_map_iff. exists (Z.to_nat b). split.
  - apply Z2Nat.id. apply Hb.
  - apply in_seq. unfold is_byte in Hb. lia.
Qed.

Lemma land_15 b : is_byte b -> Z.land b 15 = Spec.clear_top4 b.
Proof.
  intros Hb. apply Z.eqb_eq.
  revert b Hb. apply byte_cases. vm_compute. reflexivity.
Qed.

Lemma land_252 b : is_byte b -> Z.land b 252 = Spec.clear_bottom2 b.
Proof.
  intros Hb. apply Z.eqb_eq.
  revert b Hb. apply byte_cases. vm_compute. reflexivity.
Qed.

Lemma clamp_spec l :
  length l = 16%nat -> bytes_ok l -> poly1305.clamp l = Spec.clamp_from 0 l.
Proof.
  intros Hlen Hok.
  do 16 (destruct l as [|? l]; [discriminate Hlen|]).
  destruct l; [|discriminate Hlen].
  unfold bytes_ok in Hok.
  repeat match goal with
         | H : Forall _ (_ :: _) |- _ => inversion H; clear H; subst
         end.
  unfold poly1305.clamp.
  cbn [set get nth Spec.clamp_from existsb Nat.eqb orb].
  rewrite !land_15, !land_252 by assumption. reflexivity.
Qed.

Lemma firstn_ok (Q : Z -> Prop) n (l : list Z) :
  Forall Q l -> Forall Q (firstn n l).
Proof.
  intros H. revert n. induction H; intros [|n]; cbn; auto.
Qed.

Lemma NewPoly1305_spec key :
  length key = 32%nat -> bytes_ok key ->
  poly1305.NewPoly1305 key
  = poly1305.mkPoly1305 0 (Spec.r_of key) (Spec.s_of key).
Proof.
  intros Hlen Hok. unfold poly1305.NewPoly1305, slice.
  cbn [skipn Nat.sub].
  rewrite (copy_full16 (firstn 16 key)) by (rewrite length_firstn; lia).
  rewrite (firstn_all2 (skipn 16 key)) by (rewrite length_skipn; lia).
  rewrite (copy_full16 (skipn 16 key)) by (rewrite length_skipn; lia).
  rewrite clamp_spec; [| rewrite length_firstn; lia | now apply firstn_ok].
  rewrite !SetBytes_rev. reflexivity.
Qed.

Lemma le_int_nonneg l : bytes_ok l -> 0 <= Spec.le_int l.
Proof.
  induction 1 as [|b l Hb _ IH]; cbn [Spec.le_int]; [lia|].
  unfold is_byte in Hb. lia.
Qed.

Lemma skipn_ok (Q : Z -> Prop) n (l : list Z) :
  Forall Q l -> Forall Q (skipn n l).
Proof.
  intros H. revert n. induction H; intros [|n]; cbn; auto.
Qed.

(** ** Serializing words *)

Lemma putWords_spec ws : forall i off pre mid post,
  length pre = (i * 4 + off)%nat -> length mid = (4 * length ws)%nat ->
  putWords ws i off (pre ++ mid ++ post)
  = pre ++ Spec.word_bytes ws ++ post.
Proof.
  induction ws as [|w ws IH]; intros i off pre mid post Hpre Hmid.
  - destruct mid; [reflexivity | discriminate].
  - destruct mid as [|m0 [|m1 [|m2 [|m3 mid]]]]; cbn [length] in Hmid;
      try lia.
    cbn [putWords]. rewrite <- Hpre.
    cbn [app].
    repeat (rewrite ?set_app_0, ?set_app_r; cbn [set]).
    change (pre ++ byte w :: byte (Z.shiftr w 8) :: byte (Z.shiftr w 16)
              :: byte (Z.shiftr w 24) :: mid ++ post)
      with (pre ++ [byte w; byte (Z.shiftr w 8); byte (Z.shiftr w 16);
                    byte (Z.shiftr w 24)] ++ mid ++ post).
    rewrite app_assoc, IH.
    + unfold Spec.word_bytes. cbn [flat_map]. rewrite le_bytes_4.
      now rewrite <- !app_assoc.
    + rewrite length_app. cbn [length]. lia.
    + lia.
Qed.

Lemma putWords_fresh ws n :
  n = (4 * length ws)%nat ->
  putWords ws 0 0 (repeat 0 n) = Spec.word_bytes ws.
Proof.
  intros Hn.
  pose proof (putWords_spec ws 0 0 [] (repeat 0 n) []) as H.
  cbn [app] in H. rewrite !app_nil_r in H. apply H; [reflexivity|].
  now rewrite repeat_length.
Qed.

Lemma word_bytes_app a b :
  Spec.word_bytes (a ++ b) = Spec.word_bytes a ++ Spec.word_bytes b.
Proof. unfold Spec.word_bytes. apply flat_map_app. Qed.

Lemma word_bytes_firstn n ws :
  Spec.word_bytes (firstn n ws) = firstn (4 * n) (Spec.word_bytes ws).
Proof.
  revert ws; induction n as [|n IH]; intros ws.
  - reflexivity.
  - destruct ws as [|w ws].
    + now rewrite !firstn_nil.
    + replace (4 * S n)%nat with (4 + 4 * n)%nat by lia.
      cbn [firstn]. unfold Spec.word_bytes in *. cbn [flat_map].
      rewrite IH. cbn [Spec.le_bytes app Nat.add firstn]. reflexivity.
Qed.

(** ** AEAD framing *)

Lemma iter_snoc_zero n (l : list Z) :
  Nat.iter n (fun res => res ++ [0]) l = l ++ repeat 0 n.
Proof.
  induction n as [|n IH]; [now rewrite app_nil_r|].
  rewrite (Nat.iter_succ n _ (fun res : list Z => res ++ [0])), IH.
  rewrite <- app_assoc. f_equal. symmetry. apply (repeat_cons n 0).
Qed.

Lemma padTo16Bytes_spec data :
  chacha20poly1305.padTo16Bytes data = data ++ Spec.zero_pad data.
Proof.
  unfold chacha20poly1305.padTo16Bytes, Spec.zero_pad.
  destruct (length data mod 16 =? 0)%nat eqn:E.
  - apply Nat.eqb_eq in E. rewrite E.
    change ((16 - 0) mod 16)%nat with 0%nat. now rewrite app_nil_r.
  - apply Nat.eqb_neq in E. rewrite iter_snoc_zero. do 2 f_equal.
    symmetry. apply Nat.mod_small. lia.
Qed.

Lemma padTo16Bytes_length data :
  (length (chacha20poly1305.padTo16Bytes data) mod 16 = 0)%nat.
Proof.
  rewrite padTo16Bytes_spec. unfold Spec.zero_pad.
  rewrite length_app, repeat_length. lia.
Qed.

(** The 8-byte length field holds the length modulo 2^32. *)
Lemma length_field n :
  chacha20poly1305.PutUint32 (repeat 0 8) (uint32 n)
  = Spec.le_bytes 8 (n mod 2 ^ 32).
Proof.
  unfold chacha20poly1305.PutUint32, uint32. cbn [repeat set].
  change 8%nat with (4 + 4)%nat.
  rewrite (le_bytes_small 4 4) by (apply Z.mod_pos_bound; lia).
  rewrite le_bytes_4. reflexivity.
Qed.

Lemma generatePoly1305Input_spec aad ciphertext :
  chacha20poly1305.generatePoly1305Input aad ciphertext
  = aad ++ Spec.zero_pad aad ++ ciphertext ++ Spec.zero_pad ciphertext
      ++ Spec.le_bytes 8 (Z.of_nat (length aad) mod 2 ^ 32)
      ++ Spec.le_bytes 8 (Z.of_nat (length ciphertext) mod 2 ^ 32).
Proof.
  unfold chacha20poly1305.generatePoly1305Input.
  rewrite !length_field, !padTo16Bytes_spec. cbn [app].
  now rewrite <- !app_assoc.
Qed.

(** For inputs shorter than 2^32 bytes the framing is the specified one. *)
Lemma generatePoly1305Input_small aad ciphertext :
  Z.of_nat (length aad) < 2 ^ 32 ->
  Z.of_nat (length ciphertext) < 2 ^ 32 ->
  chacha20poly1305.generatePoly1305Input aad ciphertext
  = Spec.auth_input aad ciphertext.
Proof.
  intros Ha Hc. rewrite generatePoly1305Input_spec. unfold Spec.auth_input.
  rewrite !Z.mod_small by lia. reflexivity.
Qed.

(** ** Tag comparison *)

Lemma forallb_false {A} (f : A -> bool) l :
  forallb f l = false -> exists x, In x l /\ f x = false.
Proof.
  induction l as [|a l IH]; cbn [forallb]; [discriminate|].
  destruct (f a) eqn:E; cbn [andb]; intros H.
  - destruct (IH H) as [x [Hx Hf]]. exists x. split; [now right | exact Hf].
  - exists a. split; [now left | exact E].
Qed.

Lemma tagsDiffer_false_iff tag computed :
  chacha20poly1305.tagsDiffer tag computed = false
  <-> (forall i, (i < 16)%nat -> get tag i = get computed i).
Proof.
  unfold chacha20poly1305.tagsDiffer.
  rewrite negb_false_iff, forallb_forall. split.
  - intros H i Hi. apply Z.eqb_eq, H, in_seq. lia.
  - intros H i Hi. apply Z.eqb_eq, H. apply in_seq in Hi. lia.
Qed.

Lemma tagsDiffer_true_iff tag computed :
  chacha20poly1305.tagsDiffer tag computed = true
  <-> (exists i, (i < 16)%nat /\ get tag i <> get computed i).
Proof.
  unfold chacha20poly1305.tagsDiffer.
  rewrite negb_true_iff. split.
  - intros H.
    destruct (forallb_false _ _ H) as [i [Hi Hf]].
    exists i. apply in_seq in Hi. apply Z.eqb_neq in Hf. split; [lia | exact Hf].
  - intros [i [Hi Hne]].
    destruct (forallb _ _) eqn:E; [|reflexivity].
    rewrite forallb_forall in E. exfalso. apply Hne, Z.eqb_eq, E, in_seq. lia.
Qed.

(** ** Words: rotation and the quarter round *)

Lemma lor_low_mul a m n :
  0 <= n -> 0 <= a < 2 ^ n -> Z.lor a (m * 2 ^ n) = a + m * 2 ^ n.
Proof.
  intros Hn Ha.
  assert (Hdisj : Z.land a (m * 2 ^ n) = 0).
  { apply Z.bits_inj'. intros i Hi.
    rewrite Z.land_spec, Z.bits_0.
    destruct (Z.lt_ge_cases i n) as [Hlt|Hge].
    - rewrite Z.mul_pow2_bits_low by lia. apply andb_false_r.
    - rewrite <- (Z.mod_small a (2 ^ n)) by lia.
      rewrite Z.mod_pow2_bits_high by lia. reflexivity. }
  pose proof (Z.add_lor_land a (m * 2 ^ n)) as H. rewrite Hdisj in H. lia.
Qed.

Lemma rotl_split x k :
  0 < k < 32 ->
  (x * 2 ^ k) mod 2 ^ 32 = (x mod 2 ^ (32 - k)) * 2 ^ k.
Proof.
  intros Hk.
  replace (2 ^ 32) with (2 ^ (32 - k) * 2 ^ k)
    by (rewrite <- Z.pow_add_r by lia; f_equal; lia).
  apply Z.mul_mod_distr_r; apply Z.pow_nonzero; lia.
Qed.

Lemma RotateLeft32_spec x k :
  0 < k < 32 -> is_word x -> RotateLeft32 x k = Spec.rotl x k.
Proof.
  intros Hk Hx. unfold RotateLeft32, Spec.rotl, uint32.
  change 31 with (Z.ones 5). rewrite Z.land_ones by lia.
  rewrite (Z.mod_small k) by (change (2 ^ 5) with 32; lia).
  rewrite Z.shiftl_mul_pow2, Z.shiftr_div_pow2 by lia.
  rewrite rotl_split by assumption.
  rewrite Z.lor_comm, Z.add_comm. apply lor_low_mul; [lia|].
  unfold is_word in Hx.
  assert (HA : 0 < 2 ^ (32 - k)) by (apply Z.pow_pos_nonneg; lia).
  split; [apply Z.div_pos; lia|].
  apply Z.div_lt_upper_bound; [lia|].
  rewrite <- Z.pow_add_r by lia. replace (32 - k + k) with 32 by lia. lia.
Qed.

Lemma rotl_word x k : 0 < k < 32 -> is_word x -> is_word (Spec.rotl x k).
Proof.
  intros Hk Hx. unfold Spec.rotl. rewrite rotl_split by assumption.
  unfold is_word in *.
  assert (HA : 0 < 2 ^ (32 - k)) by (apply Z.pow_pos_nonneg; lia).
  assert (HB : 0 < 2 ^ k) by (apply Z.pow_pos_nonneg; lia).
  assert (HAB : 2 ^ (32 - k) * 2 ^ k = 2 ^ 32)
    by (rewrite <- Z.pow_add_r by lia; f_equal; lia).
  pose proof (Z.mod_pos_bound x (2 ^ (32 - k)) HA) as Hm.
  assert (Hq : 0 <= x / 2 ^ (32 - k) < 2 ^ k).
  { split; [apply Z.div_pos; lia|].
    apply Z.div_lt_upper_bound; [lia|]. rewrite HAB. lia. }
  set (m := x mod 2 ^ (32 - k)) in *. set (q := x / 2 ^ (32 - k)) in *.
  set (A := 2 ^ (32 - k)) in *. set (B := 2 ^ k) in *.
  split; [nia|].
  assert (m * B <= (A - 1) * B) by nia. nia.
Qed.

Lemma RotateLeft32_word x k :
  0 < k < 32 -> is_word x -> is_word (RotateLeft32 x k).
Proof.
  intros Hk Hx. rewrite RotateLeft32_spec by assumption.
  now apply rotl_word.
Qed.

Lemma lxor_word x y : is_word x -> is_word y -> is_word (Z.lxor x y).
Proof.
  intros Hx Hy.
  assert (H : Z.lxor x y = Z.lxor x y mod 2 ^ 32).
  { apply Z.bits_inj'. intros i Hi.
    rewrite Z.testbit_mod_pow2 by lia.
    destruct (i <? 32) eqn:E; [reflexivity|]. apply Z.ltb_ge in E.
    rewrite Z.lxor_spec.
    rewrite <- (Z.mod_small x (2 ^ 32)), <- (Z.mod_small y (2 ^ 32))
      by assumption.
    rewrite !Z.mod_pow2_bits_high by lia. reflexivity. }
  rewrite H. apply Z.mod_pos_bound. lia.
Qed.

Ltac word_tac :=
  repeat first
    [ assumption
    | apply uint32_word
    | apply lxor_word
    | apply RotateLeft32_word; [lia|] ].

Lemma quarterRound_spec a b c d :
  is_word a -> is_word b -> is_word c -> is_word d ->
  chacha20.quarterRound a b c d = Spec.quarter (a, b, c, d).
Proof.
  intros Ha Hb Hc Hd.
  unfold chacha20.quarterRound, Spec.quarter, Spec.add32. cbv zeta.
  fold (uint32 (a + b)).
  repeat match goal with
         | |- context [?x mod 2 ^ 32] => progress fold (uint32 x)
         end.
  rewrite <- !RotateLeft32_spec by (try lia; word_tac).
  reflexivity.
Qed.

Lemma quarterRound_words a b c d :
  is_word a -> is_word b -> is_word c -> is_word d ->
  let '(a', b', c', d') := chacha20.quarterRound a b c d in
  is_word a' /\ is_word b' /\ is_word c' /\ is_word d'.
Proof.
  intros Ha Hb Hc Hd. unfold chacha20.quarterRound. cbv zeta.
  repeat split; word_tac.
Qed.

(** ** Rounds on the state array *)

Lemma zero_word : is_word 0.
Proof. unfold is_word. lia. Qed.

Lemma qrAt_words x y z w st : words_ok st -> words_ok (qrAt x y z w st).
Proof.
  intros Hst. unfold qrAt.
  pose proof (quarterRound_words (get st x) (get st y) (get st z) (get st w))
    as H.
  destruct (chacha20.quarterRound _ _ _ _) as [[[a b] c] d].
  destruct H as [Ha [Hb [Hc Hd]]];
    try (apply get_Forall; [exact Hst | exact zero_word]).
  unfold words_ok. repeat apply set_Forall; assumption.
Qed.

Lemma qrAt_spec x y z w st :
  words_ok st -> qrAt x y z w st = Spec.quarter_at st (x, y, z, w).
Proof.
  intros Hst. unfold qrAt, Spec.quarter_at.
  rewrite quarterRound_spec;
    try (apply get_Forall; [exact Hst | exact zero_word]).
  reflexivity.
Qed.

Lemma dround_words st : words_ok st -> words_ok (dround st).
Proof. intros H. unfold dround. repeat apply qrAt_words. exact H. Qed.

Ltac qr_step x y z w st H :=
  let E := fresh "E" in
  let W := fresh "W" in
  let s := fresh "s" in
  pose proof (qrAt_spec x y z w st H) as E;
  pose proof (qrAt_words x y z w st H) as W;
  set (s := qrAt x y z w st) in *; clearbody s;
  rewrite <- E; clear E.

Lemma dround_spec st : words_ok st -> dround st = Spec.double_round st.
Proof.
  intros H. unfold dround, Spec.double_round, Spec.column_groups,
    Spec.diagonal_groups.
  cbn [fold_left].
  qr_step 0%nat 4%nat 8%nat 12%nat st H.
  match goal with W : words_ok ?s |- _ =>
    qr_step 1%nat 5%nat 9%nat 13%nat s W; clear W end.
  match goal with W : words_ok ?s |- _ =>
    qr_step 2%nat 6%nat 10%nat 14%nat s W; clear W end.
  match goal with W : words_ok ?s |- _ =>
    qr_step 3%nat 7%nat 11%nat 15%nat s W; clear W end.
  match goal with W : words_ok ?s |- _ =>
    qr_step 0%nat 5%nat 10%nat 15%nat s W; clear W end.
  match goal with W : words_ok ?s |- _ =>
    qr_step 1%nat 6%nat 11%nat 12%nat s W; clear W end.
  match goal with W : words_ok ?s |- _ =>
    qr_step 2%nat 7%nat 8%nat 13%nat s W; clear W end.
  match goal with W : words_ok ?s |- _ =>
    qr_step 3%nat 4%nat 9%nat 14%nat s W; clear W end.
  reflexivity.
Qed.

Lemma iter_dround_spec n st :
  words_ok st ->
  Nat.iter n dround st = Nat.iter n Spec.double_round st
  /\ words_ok (Nat.iter n dround st).
Proof.
  intros H. induction n as [|n [IH1 IH2]]; [split; [reflexivity | exact H]|].
  rewrite (Nat.iter_succ n _ dround), (Nat.iter_succ n _ Spec.double_round).
  split; [|now apply dround_words].
  rewrite <- IH1. now apply dround_spec.
Qed.

Lemma addState_spec old : forall pre st,
  length old = length st ->
  chacha20.addState old (length pre) (pre ++ st)
  = pre ++ Spec.zip_with Spec.add32 st old.
Proof.
  induction old as [|v old IH]; intros pre st Hlen.
  - destruct st; [reflexivity | discriminate].
  - destruct st as [|x st]; [discriminate|].
    cbn [chacha20.addState]. rewrite get_app_0, set_app_0. cbn [get nth set].
    change (pre ++ uint32 (x + v) :: st) with (pre ++ [uint32 (x + v)] ++ st).
    rewrite app_assoc.
    replace (S (length pre)) with (length (pre ++ [uint32 (x + v)]))
      by (rewrite length_app; cbn [length]; lia).
    rewrite IH by (cbn [length] in Hlen; lia).
    rewrite <- app_assoc. reflexivity.
Qed.

Lemma initState_spec k n c :
  length k = 8%nat -> length n = 3%nat ->
  chacha20.initState k n c = Spec.constants ++ k ++ [c] ++ n.
Proof.
  intros Hk Hn.
  do 8 (destruct k as [|? k]; [discriminate Hk|]).
  destruct k; [|discriminate Hk].
  do 3 (destruct n as [|? n]; [discriminate Hn|]).
  destruct n; [|discriminate Hn].
  reflexivity.
Qed.

Lemma constants_words : words_ok Spec.constants.
Proof. repeat constructor; unfold is_word; cbn; lia. Qed.

Lemma permute_unfold st : Spec.permute st = Nat.iter 10 Spec.double_round st.
Proof. reflexivity. Qed.

Lemma addState_spec0 old st :
  length old = length st ->
  chacha20.addState old 0 st = Spec.zip_with Spec.add32 st old.
Proof. intros H. exact (addState_spec old [] st H). Qed.

Lemma feed_forward_spec st0 :
  words_ok st0 ->
  chacha20.addState st0 0 (Nat.iter 10 dround st0)
  = Spec.zip_with Spec.add32 (Spec.permute st0) st0.
Proof.
  intros Hw. rewrite permute_unfold.
  destruct (iter_dround_spec 10 st0 Hw) as [Heq _].
  rewrite <- Heq.
  apply addState_spec0. symmetry. apply iter_dround_length.
Qed.

Lemma blockOf_spec k n c :
  length k = 8%nat -> length n = 3%nat ->
  words_ok k -> words_ok n -> is_word c ->
  blockOf k n c
  = Spec.zip_with Spec.add32
      (Spec.permute (Spec.constants ++ k ++ [c] ++ n))
      (Spec.constants ++ k ++ [c] ++ n).
Proof.
  intros Hk Hn Hkw Hnw Hc. unfold blockOf.
  rewrite initState_spec by assumption.
  apply feed_forward_spec.
  unfold words_ok. rewrite !Forall_app.
  repeat split; try assumption; [apply constants_words|].
  constructor; [exact Hc | constructor].
Qed.

(** ** NewChaCha20: little-endian words *)

Lemma LE_Uint32_spec b0 b1 b2 b3 :
  is_byte b0 -> is_byte b1 -> is_byte b2 -> is_byte b3 ->
  LittleEndian_Uint32 [b0; b1; b2; b3] = Spec.le_int [b0; b1; b2; b3]
  /\ is_word (Spec.le_int [b0; b1; b2; b3]).
Proof.
  unfold is_byte, is_word. intros H0 H1 H2 H3. split.
  - unfold LittleEndian_Uint32. cbn [get nth Spec.le_int].
    rewrite !Z.shiftl_mul_pow2 by lia.
    rewrite (lor_low_mul (b2 * 2 ^ 16) b3 24) by lia.
    replace (b2 * 2 ^ 16 + b3 * 2 ^ 24) with ((b2 + b3 * 2 ^ 8) * 2 ^ 16)
      by lia.
    rewrite (lor_low_mul (b1 * 2 ^ 8) _ 16) by lia.
    replace (b1 * 2 ^ 8 + (b2 + b3 * 2 ^ 8) * 2 ^ 16)
      with ((b1 + (b2 + b3 * 2 ^ 8) * 2 ^ 8) * 2 ^ 8) by lia.
    rewrite (lor_low_mul b0 _ 8) by lia. lia.
  - cbn [Spec.le_int]. lia.
Qed.

Ltac split_bytes H :=
  unfold bytes_ok in H;
  repeat match goal with
         | H' : Forall _ (_ :: _) |- _ => inversion H'; clear H'; subst
         end.

Lemma counter_word cb :
  length cb = 4%nat -> bytes_ok cb ->
  LittleEndian_Uint32 cb = Spec.le_int cb /\ is_word (Spec.le_int cb).
Proof.
  intros Hlen Hok.
  do 4 (destruct cb as [|? cb]; [discriminate Hlen|]).
  destruct cb; [|discriminate Hlen].
  split_bytes Hok. now apply LE_Uint32_spec.
Qed.

Lemma nonce_words nb :
  length nb = 12%nat -> bytes_ok nb ->
  [ LittleEndian_Uint32 (slice nb 0 4); LittleEndian_Uint32 (slice nb 4 8);
    LittleEndian_Uint32 (slice nb 8 12) ] = Spec.words nb
  /\ words_ok (Spec.words nb) /\ length (Spec.words nb) = 3%nat.
Proof.
  intros Hlen Hok.
  do 12 (destruct nb as [|? nb]; [discriminate Hlen|]).
  destruct nb; [|discriminate Hlen].
  split_bytes Hok.
  unfold Spec.words, Spec.blocks, slice.
  cbn [length Spec.chunks firstn skipn map Nat.sub].
  repeat match goal with
         | |- context [LittleEndian_Uint32 [?a; ?b; ?c; ?d]] =>
             rewrite (proj1 (LE_Uint32_spec a b c d ltac:(assumption)
                               ltac:(assumption) ltac:(assumption)
                               ltac:(assumption)))
         end.
  split; [reflexivity|]. split; [|reflexivity].
  repeat constructor; apply LE_Uint32_spec; assumption.
Qed.

Lemma key_words kb :
  length kb = 32%nat -> bytes_ok kb ->
  [ LittleEndian_Uint32 (slice kb 0 4); LittleEndian_Uint32 (slice kb 4 8);
    LittleEndian_Uint32 (slice kb 8 12); LittleEndian_Uint32 (slice kb 12 16);
    LittleEndian_Uint32 (slice kb 16 20); LittleEndian_Uint32 (slice kb 20 24);
    LittleEndian_Uint32 (slice kb 24 28);
    LittleEndian_Uint32 (slice kb 28 32) ] = Spec.words kb
  /\ words_ok (Spec.words kb) /\ length (Spec.words kb) = 8%nat.
Proof.
  intros Hlen Hok.
  do 32 (destruct kb as [|? kb]; [discriminate Hlen|]).
  destruct kb; [|discriminate Hlen].
  split_bytes Hok.
  unfold Spec.words, Spec.blocks, slice.
  cbn [length Spec.chunks firstn skipn map Nat.sub].
  repeat match goal with
         | |- context [LittleEndian_Uint32 [?a; ?b; ?c; ?d]] =>
             rewrite (proj1 (LE_Uint32_spec a b c d ltac:(assumption)
                               ltac:(assumption) ltac:(assumption)
                               ltac:(assumption)))
         end.
  split; [reflexivity|]. split; [|reflexivity].
  repeat constructor; apply LE_Uint32_spec; assumption.
Qed.

Lemma NewChaCha20_spec kb nb cb :
  length kb = 32%nat -> bytes_ok kb ->
  length nb = 12%nat -> bytes_ok nb ->
  length cb = 4%nat -> bytes_ok cb ->
  chacha20.NewChaCha20 kb nb cb
  = chacha20.mkChaCha20 (Spec.le_int cb) (Spec.words kb) (Spec.words nb)
      (chacha20.initState (Spec.words kb) (Spec.words nb) (Spec.le_int cb)).
Proof.
  intros Hk Hkb Hn Hnb Hc Hcb. unfold chacha20.NewChaCha20. cbv zeta.
  rewrite (proj1 (key_words kb Hk Hkb)), (proj1 (nonce_words nb Hn Hnb)),
    (proj1 (counter_word cb Hc Hcb)).
  reflexivity.
Qed.

(** * The claims *)

(** ** Stream cipher: XORWithKeyStream *)

(** C7 -- [XORWithKeyStream] is a length-preserving involution.  For every
    instance [c] (its counter a [uint32]) and every [N]-byte input: the
    result has exactly [N] bytes; the instance afterwards is the one left by
    [ceil(N/64)] successive [CreateBlock] calls, so the counter has advanced
    by [ceil(N/64)] in [uint32] arithmetic (by exactly that much when the
    range is not left) and key and nonce are unchanged; byte [i] of the
    result is byte [i] of the input XORed with byte [i] of the serialized
    blocks, the unused tail of the last block being dropped; and running the
    result through any instance with the same key, nonce and counter gives
    the input back. *)
Theorem XORWithKeyStream_involution (c : chacha20.ChaCha20) (data : list Z) :
  is_word (chacha20.counter c) ->
  let n := length data in
  let blocks := ceilDiv n 64 in
  let out := fst (chacha20.XORWithKeyStream c data) in
  let c' := snd (chacha20.XORWithKeyStream c data) in
  length out = n
  /\ c' = snd (createBlocks blocks c)
  /\ chacha20.counter c' = (chacha20.counter c + Z.of_nat blocks) mod 2 ^ 32
  /\ (chacha20.counter c + Z.of_nat blocks < 2 ^ 32 ->
      chacha20.counter c' = chacha20.counter c + Z.of_nat blocks)
  /\ chacha20.key c' = chacha20.key c
  /\ chacha20.nonce c' = chacha20.nonce c
  /\ out = Spec.zip_with Z.lxor data (firstn n (fst (createBlocks blocks c)))
  /\ (forall c2,
        chacha20.key c2 = chacha20.key c ->
        chacha20.nonce c2 = chacha20.nonce c ->
        chacha20.counter c2 = chacha20.counter c ->
        fst (chacha20.XORWithKeyStream c2 out) = data).
Proof.
  intros Hc n blocks out c'.
  assert (Hc' : c' = snd (createBlocks blocks c))
    by (unfold c'; rewrite XORWithKeyStream_spec; reflexivity).
  assert (Hcnt : chacha20.counter c'
                 = (chacha20.counter c + Z.of_nat blocks) mod 2 ^ 32)
    by (rewrite Hc'; now apply createBlocks_counter).
  repeat split.
  - apply XORWithKeyStream_length.
  - exact Hc'.
  - exact Hcnt.
  - intros Hlt. rewrite Hcnt. apply Z.mod_small. unfold is_word in Hc. lia.
  - rewrite Hc'. apply createBlocks_fields.
  - rewrite Hc'. apply createBlocks_fields.
  - unfold out. rewrite XORWithKeyStream_spec. cbn [fst].
    apply zip_with_firstn.
  - intros c2 Hk Hn Hcn. now apply XORWithKeyStream_twice.
Qed.

Lemma XORWithKeyStream_involution_witness :
  is_word (chacha20.counter (chacha20.NewChaCha20 rfc_key rfc_nonce [1;0;0;0]))
  /\ length (fst (chacha20.XORWithKeyStream
                    (chacha20.NewChaCha20 rfc_key rfc_nonce [1;0;0;0])
                    sunscreen)) = length sunscreen.
Proof.
  assert (H : is_word (chacha20.counter
                         (chacha20.NewChaCha20 rfc_key rfc_nonce [1;0;0;0])))
    by (vm_compute; split; [discriminate | reflexivity]).
  split; [exact H|].
  exact (proj1 (XORWithKeyStream_involution _ sunscreen H)).
Defined.

(** ** AEAD *)

Lemma tagsDiffer_refl tag : chacha20poly1305.tagsDiffer tag tag = false.
Proof. apply tagsDiffer_false_iff. reflexivity. Qed.

Lemma Decrypt_Encrypt c plaintext aad :
  fst (chacha20poly1305.Decrypt c
         (fst (fst (chacha20poly1305.Encrypt c plaintext aad))) aad
         (snd (fst (chacha20poly1305.Encrypt c plaintext aad))))
  = (plaintext, None).
Proof.
  unfold chacha20poly1305.Encrypt.
  pose proof (XORWithKeyStream_twice (chacha20poly1305.chacha20 c)
                (chacha20poly1305.chacha20 c) plaintext eq_refl eq_refl
                eq_refl) as Htwice.
  destruct (chacha20.XORWithKeyStream (chacha20poly1305.chacha20 c) plaintext)
    as [ct cha] eqn:E.
  destruct (poly1305.GenerateTag (chacha20poly1305.poly1305 c)
              (chacha20poly1305.generatePoly1305Input aad ct))
    as [tag poly] eqn:G.
  cbn [fst snd] in *. unfold chacha20poly1305.Decrypt.
  rewrite G, tagsDiffer_refl.
  destruct (chacha20.XORWithKeyStream (chacha20poly1305.chacha20 c) ct)
    as [pt cha2] eqn:E2.
  cbn [fst snd] in *. now rewrite Htwice.
Qed.

Lemma XDecrypt_XEncrypt x plaintext aad :
  fst (xchacha20poly1305.Decrypt x
         (fst (fst (xchacha20poly1305.Encrypt x plaintext aad))) aad
         (snd (fst (xchacha20poly1305.Encrypt x plaintext aad))))
  = (plaintext, None).
Proof.
  unfold xchacha20poly1305.Encrypt, xchacha20.XORWithKeyStream.
  pose proof (XORWithKeyStream_twice
                (xchacha20.chacha20 (xchacha20poly1305.xchacha20 x))
                (xchacha20.chacha20 (xchacha20poly1305.xchacha20 x))
                plaintext eq_refl eq_refl eq_refl) as Htwice.
  destruct (chacha20.XORWithKeyStream
              (xchacha20.chacha20 (xchacha20poly1305.xchacha20 x)) plaintext)
    as [ct cha] eqn:E.
  destruct (poly1305.GenerateTag (xchacha20poly1305.poly1305 x)
              (chacha20poly1305.GeneratePoly1305Input aad ct))
    as [tag poly] eqn:G.
  cbn [fst snd] in *.
  unfold xchacha20poly1305.Decrypt, xchacha20.XORWithKeyStream.
  rewrite G, tagsDiffer_refl.
  destruct (chacha20.XORWithKeyStream
              (xchacha20.chacha20 (xchacha20poly1305.xchacha20 x)) ct)
    as [pt cha2] eqn:E2.
  cbn [fst snd] in *. now rewrite Htwice.
Qed.

(** C1 -- AEAD round trip.  For every key, nonce, plaintext and associated
    data: when [Encrypt] on a freshly constructed instance returns
    (ciphertext, tag), [Decrypt] on a second freshly constructed instance
    with the same key and nonce returns the plaintext and the error [nil];
    for ChaCha20-Poly1305 and for XChaCha20-Poly1305.  (The sizes 32, 12 and
    24 are what Go's array types impose; the round trip does not depend on
    them.) *)
Theorem aead_round_trip (key nonce xnonce plaintext aad : list Z) :
  (let encrypted :=
     chacha20poly1305.Encrypt
       (chacha20poly1305.NewChaCha20Poly1305 key nonce) plaintext aad in
   let ciphertext := fst (fst encrypted) in
   let tag := snd (fst encrypted) in
   fst (chacha20poly1305.Decrypt
          (chacha20poly1305.NewChaCha20Poly1305 key nonce)
          ciphertext aad tag) = (plaintext, None))
  /\
  (let encrypted :=
     xchacha20poly1305.Encrypt
       (xchacha20poly1305.NewXChaCha20Poly1305 key xnonce) plaintext aad in
   let ciphertext := fst (fst encrypted) in
   let tag := snd (fst encrypted) in
   fst (xchacha20poly1305.Decrypt
          (xchacha20poly1305.NewXChaCha20Poly1305 key xnonce)
          ciphertext aad tag) = (plaintext, None)).
Proof.
  split; cbv zeta.
  - apply Decrypt_Encrypt.
  - apply XDecrypt_XEncrypt.
Qed.

Lemma arrays16_eq a b :
  length a = 16%nat -> length b = 16%nat ->
  (a = b <-> forall i, (i < 16)%nat -> get a i = get b i).
Proof.
  intros Ha Hb. split; [now intros ->|].
  intros H. apply (nth_ext a b 0 0); [congruence|].
  intros i Hi. apply H. lia.
Qed.

Lemma tagsDiffer_neq tag computed :
  length tag = 16%nat -> length computed = 16%nat ->
  (chacha20poly1305.tagsDiffer tag computed = true <-> tag <> computed).
Proof.
  intros Ht Hc. rewrite (arrays16_eq tag computed Ht Hc).
  rewrite <- tagsDiffer_false_iff.
  destruct (chacha20poly1305.tagsDiffer tag computed); split; congruence.
Qed.

(** C2 -- fail-closed decryption.  [Decrypt] runs the authenticator over the
    framed (aad, ciphertext) first.  It returns [ErrInvalidTag] exactly when
    the supplied 16-byte tag differs from the computed tag, which is exactly
    when they differ at one of the 16 positions (no position is skipped).  In
    the error case the returned plaintext is empty and the cipher instance is
    untouched: no keystream block was produced.  Otherwise the error is [nil]
    and the plaintext is the ciphertext run through the cipher.  The same
    holds for XChaCha20-Poly1305. *)
Theorem decrypt_fail_closed
    (c : chacha20poly1305.ChaCha20Poly1305)
    (x : xchacha20poly1305.XChaCha20Poly1305)
    (ciphertext aad tag : list Z) :
  length tag = 16%nat ->
  (let input := chacha20poly1305.generatePoly1305Input aad ciphertext in
   let authenticated :=
     poly1305.GenerateTag (chacha20poly1305.poly1305 c) input in
   let computedTag := fst authenticated in
   let result := chacha20poly1305.Decrypt c ciphertext aad tag in
   let plaintext := fst (fst result) in
   let err := snd (fst result) in
   let c' := snd result in
   (err = Some chacha20poly1305.ErrInvalidTag <-> tag <> computedTag)
   /\ (err = Some chacha20poly1305.ErrInvalidTag <->
       exists i, (i < 16)%nat /\ get tag i <> get computedTag i)
   /\ (err = Some chacha20poly1305.ErrInvalidTag ->
       plaintext = []
       /\ chacha20poly1305.chacha20 c' = chacha20poly1305.chacha20 c)
   /\ (err <> Some chacha20poly1305.ErrInvalidTag ->
       err = None
       /\ plaintext
          = fst (chacha20.XORWithKeyStream (chacha20poly1305.chacha20 c)
                   ciphertext))
   /\ chacha20poly1305.poly1305 c' = snd authenticated)
  /\
  (let input := chacha20poly1305.GeneratePoly1305Input aad ciphertext in
   let authenticated :=
     poly1305.GenerateTag (xchacha20poly1305.poly1305 x) input in
   let computedTag := fst authenticated in
   let result := xchacha20poly1305.Decrypt x ciphertext aad tag in
   let plaintext := fst (fst result) in
   let err := snd (fst result) in
   let x' := snd result in
   (err = Some chacha20poly1305.ErrInvalidTag <-> tag <> computedTag)
   /\ (err = Some chacha20poly1305.ErrInvalidTag <->
       exists i, (i < 16)%nat /\ get tag i <> get computedTag i)
   /\ (err = Some chacha20poly1305.ErrInvalidTag ->
       plaintext = []
       /\ xchacha20poly1305.xchacha20 x' = xchacha20poly1305.xchacha20 x)
   /\ (err <> Some chacha20poly1305.ErrInvalidTag ->
       err = None
       /\ plaintext
          = fst (xchacha20.XORWithKeyStream (xchacha20poly1305.xchacha20 x)
                   ciphertext))
   /\ xchacha20poly1305.poly1305 x' = snd authenticated).
Proof.
  intros Htag. split; cbv zeta.
  - unfold chacha20poly1305.Decrypt.
    pose proof (GenerateTag_length (chacha20poly1305.poly1305 c)
                  (chacha20poly1305.generatePoly1305Input aad ciphertext))
      as Hlen.
    destruct (poly1305.GenerateTag _ _) as [computed poly].
    cbn [fst snd] in *.
    pose proof (tagsDiffer_neq tag computed Htag Hlen) as Hneq.
    pose proof (tagsDiffer_true_iff tag computed) as Hex.
    destruct (chacha20poly1305.tagsDiffer tag computed).
    + cbn [fst snd chacha20poly1305.chacha20 chacha20poly1305.poly1305].
      intuition (try discriminate; try congruence).
    + destruct (chacha20.XORWithKeyStream _ _) as [pt cha].
      cbn [fst snd chacha20poly1305.chacha20 chacha20poly1305.poly1305].
      intuition (try discriminate; try congruence).
  - unfold xchacha20poly1305.Decrypt, xchacha20.XORWithKeyStream.
    pose proof (GenerateTag_length (xchacha20poly1305.poly1305 x)
                  (chacha20poly1305.GeneratePoly1305Input aad ciphertext))
      as Hlen.
    destruct (poly1305.GenerateTag _ _) as [computed poly].
    cbn [fst snd] in *.
    pose proof (tagsDiffer_neq tag computed Htag Hlen) as Hneq.
    pose proof (tagsDiffer_true_iff tag computed) as Hex.
    destruct (chacha20poly1305.tagsDiffer tag computed).
    + cbn [fst snd xchacha20poly1305.xchacha20 xchacha20poly1305.poly1305].
      intuition (try discriminate; try congruence).
    + destruct (chacha20.XORWithKeyStream _ _) as [pt cha].
      cbn [fst snd xchacha20poly1305.xchacha20 xchacha20poly1305.poly1305].
      intuition (try discriminate; try congruence).
Qed.

Lemma decrypt_fail_closed_witness :
  length zero_tag = 16%nat
  /\ snd (fst (chacha20poly1305.Decrypt
                 (chacha20poly1305.NewChaCha20Poly1305 aead_key aead_nonce)
                 [1; 2; 3] aead_aad zero_tag))
     = Some chacha20poly1305.ErrInvalidTag.
Proof.
  assert (H : length zero_tag = 16%nat) by reflexivity.
  split; [exact H|].
  destruct (decrypt_fail_closed
              (chacha20poly1305.NewChaCha20Poly1305 aead_key aead_nonce)
              (xchacha20poly1305.NewXChaCha20Poly1305 aead_key xaead_nonce)
              [1; 2; 3] aead_aad zero_tag H) as [[H1 _] _].
  apply H1. vm_compute. intros E. discriminate E.
Defined.

(** ** Poly1305 *)

(** The two clearing operations of the clamp, bit by bit. *)
Lemma clear_bits_spec b i :
  0 <= i ->
  Z.testbit (Spec.clear_top4 b) i = (i <? 4) && Z.testbit b i
  /\ Z.testbit (Spec.clear_bottom2 b) i = (2 <=? i) && Z.testbit b i.
Proof.
  intros Hi. unfold Spec.clear_top4, Spec.clear_bottom2. split.
  - change 16 with (2 ^ 4). apply Z.testbit_mod_pow2. lia.
  - replace (b - b mod 4) with (Z.shiftl (Z.shiftr b 2) 2).
    + destruct (2 <=? i) eqn:E.
      * apply Z.leb_le in E. rewrite Z.shiftl_spec, Z.shiftr_spec by lia.
        cbn [andb]. f_equal. lia.
      * apply Z.leb_gt in E. now rewrite Z.shiftl_spec_low by lia.
    + rewrite Z.shiftl_mul_pow2, Z.shiftr_div_pow2 by lia.
      change (2 ^ 2) with 4. pose proof (Z.div_mod b 4). lia.
Qed.

(** C4 -- Poly1305 tag computation.  For every 32-byte key:
    [NewPoly1305] starts the accumulator at 0, takes [r] as the little-endian
    integer of the first 16 bytes with the top 4 bits of bytes 3, 7, 11, 15
    and the bottom 2 bits of bytes 4, 8, 12 cleared, and [s] as the
    little-endian integer of the last 16 bytes; [GenerateTag] leaves the
    accumulator obtained by folding
    [acc := ((acc + n) * r) mod (2^130 - 5)] over the consecutive blocks of
    at most 16 bytes, [n] being the block with the byte 0x01 appended read
    little-endian; and the tag is [(acc + s) mod 2^128] in 16 little-endian
    bytes. *)
Theorem poly1305_tag_spec (key msg : list Z) :
  length key = 32%nat -> bytes_ok key ->
  let p := poly1305.NewPoly1305 key in
  poly1305.accum p = 0
  /\ poly1305.r p = Spec.le_int (Spec.clamp_from 0 (firstn 16 key))
  /\ poly1305.s p = Spec.le_int (skipn 16 key)
  /\ poly1305.P = 2 ^ 130 - 5
  /\ poly1305.accum (snd (poly1305.GenerateTag p msg))
     = fold_left
         (fun acc blk =>
            ((acc + Spec.le_int (blk ++ [1])) * poly1305.r p)
              mod (2 ^ 130 - 5))
         (Spec.blocks 16 msg) 0
  /\ fst (poly1305.GenerateTag p msg)
     = Spec.le_bytes 16
         ((poly1305.accum (snd (poly1305.GenerateTag p msg)) + poly1305.s p)
            mod 2 ^ 128)
  /\ fst (poly1305.GenerateTag p msg) = Spec.poly1305_tag key msg.
Proof.
  intros Hlen Hok p.
  assert (Hp : p = poly1305.mkPoly1305 0 (Spec.r_of key) (Spec.s_of key))
    by (apply NewPoly1305_spec; assumption).
  assert (Hs : 0 <= Spec.s_of key)
    by (apply le_int_nonneg, skipn_ok, Hok).
  rewrite Hp.
  rewrite GenerateTag_accum, GenerateTag_tag
    by (cbn [poly1305.accum poly1305.s]; lia).
  cbn [poly1305.accum poly1305.r poly1305.s poly1305.with_accum].
  repeat split.
Qed.

Lemma poly1305_tag_spec_witness :
  length poly_key = 32%nat /\ bytes_ok poly_key
  /\ fst (poly1305.GenerateTag (poly1305.NewPoly1305 poly_key) poly_msg)
     = Spec.poly1305_tag poly_key poly_msg.
Proof.
  assert (Hl : length poly_key = 32%nat) by reflexivity.
  assert (Hb : bytes_ok poly_key)
    by (unfold bytes_ok, is_byte; repeat constructor; vm_compute; discriminate).
  split; [exact Hl|]. split; [exact Hb|].
  apply (poly1305_tag_spec poly_key poly_msg Hl Hb).
Defined.

(** C10 -- the accumulator persists across invocations.  [GenerateTag]
    leaves [r] and [s] unchanged and stores the accumulator it reached; a
    second call on the same instance folds its blocks starting from that
    stored value, not from zero, and its tag is computed from the
    accumulator so obtained.  On the RFC 8439 key and message the second
    call's tag indeed differs from the tag of a fresh instance. *)
Theorem GenerateTag_accumulator_persists
    (p : poly1305.Poly1305) (d1 d2 : list Z) :
  0 <= poly1305.accum p -> 0 <= poly1305.s p ->
  let p1 := snd (poly1305.GenerateTag p d1) in
  let p2 := snd (poly1305.GenerateTag p1 d2) in
  poly1305.r p1 = poly1305.r p /\ poly1305.s p1 = poly1305.s p
  /\ poly1305.r p2 = poly1305.r p /\ poly1305.s p2 = poly1305.s p
  /\ poly1305.accum p1
     = Spec.accumulate (poly1305.r p) (poly1305.accum p) d1
  /\ poly1305.accum p2
     = Spec.accumulate (poly1305.r p) (poly1305.accum p1) d2
  /\ fst (poly1305.GenerateTag p1 d2)
     = Spec.tag_of (Spec.accumulate (poly1305.r p) (poly1305.accum p1) d2)
         (poly1305.s p)
  /\ fst (poly1305.GenerateTag
            (snd (poly1305.GenerateTag (poly1305.NewPoly1305 poly_key)
                    poly_msg)) poly_msg)
     <> fst (poly1305.GenerateTag (poly1305.NewPoly1305 poly_key) poly_msg).
Proof.
  intros Ha Hs p1 p2.
  assert (H1 : p1 = poly1305.with_accum p
                 (Spec.accumulate (poly1305.r p) (poly1305.accum p) d1))
    by apply GenerateTag_accum.
  assert (Ha1 : 0 <= poly1305.accum p1)
    by (rewrite H1; cbn [poly1305.accum poly1305.with_accum];
        now apply accumulate_nonneg).
  assert (Hr1 : poly1305.r p1 = poly1305.r p) by (now rewrite H1).
  assert (Hs1 : poly1305.s p1 = poly1305.s p) by (now rewrite H1).
  assert (H2 : p2 = poly1305.with_accum p1
                 (Spec.accumulate (poly1305.r p1) (poly1305.accum p1) d2))
    by apply GenerateTag_accum.
  repeat split.
  - exact Hr1.
  - exact Hs1.
  - rewrite H2. exact Hr1.
  - rewrite H2. exact Hs1.
  - now rewrite H1.
  - rewrite H2, Hr1. reflexivity.
  - rewrite GenerateTag_tag by lia. now rewrite Hr1, Hs1.
  - vm_compute. intros E. discriminate E.
Qed.

Lemma GenerateTag_accumulator_persists_witness :
  0 <= poly1305.accum (poly1305.NewPoly1305 poly_key)
  /\ 0 <= poly1305.s (poly1305.NewPoly1305 poly_key)
  /\ poly1305.r (snd (poly1305.GenerateTag (poly1305.NewPoly1305 poly_key)
                        poly_msg))
     = poly1305.r (poly1305.NewPoly1305 poly_key).
Proof.
  assert (Ha : 0 <= poly1305.accum (poly1305.NewPoly1305 poly_key))
    by (vm_compute; discriminate).
  assert (Hs : 0 <= poly1305.s (poly1305.NewPoly1305 poly_key))
    by (vm_compute; discriminate).
  split; [exact Ha|]. split; [exact Hs|].
  exact (proj1 (GenerateTag_accumulator_persists
                  (poly1305.NewPoly1305 poly_key) poly_msg poly_msg Ha Hs)).
Defined.

(** ** ChaCha20 block function *)

Lemma block_unfold kb nb c :
  Spec.block kb nb c
  = Spec.zip_with Spec.add32
      (Spec.permute (Spec.constants ++ Spec.words kb ++ [c] ++ Spec.words nb))
      (Spec.constants ++ Spec.words kb ++ [c] ++ Spec.words nb).
Proof. reflexivity. Qed.

(** C3 -- the ChaCha20 block function.  Take the instance that
    [NewChaCha20] builds from a 32-byte key, a 12-byte nonce and a 4-byte
    counter, after any number [n] of earlier [CreateBlock] calls.  Its
    counter is the initial counter plus [n] (in [uint32] arithmetic), and
    [CreateBlock] returns the 16 words got from the state
    (constants of "expand 32-byte k", little-endian key words, counter,
    little-endian nonce words) by 10 double rounds and the word-wise
    addition modulo 2^32 of that initial state; it stores the block as the
    state, keeps key and nonce, and increments the counter by 1 (wrapping
    at 2^32). *)
Theorem CreateBlock_spec (kb nb cb : list Z) (n : nat) :
  length kb = 32%nat -> bytes_ok kb ->
  length nb = 12%nat -> bytes_ok nb ->
  length cb = 4%nat -> bytes_ok cb ->
  let s := snd (createBlocks n (chacha20.NewChaCha20 kb nb cb)) in
  let counter := (Spec.le_int cb + Z.of_nat n) mod 2 ^ 32 in
  chacha20.counter s = counter
  /\ fst (chacha20.CreateBlock s) = Spec.block kb nb counter
  /\ length (fst (chacha20.CreateBlock s)) = 16%nat
  /\ snd (chacha20.CreateBlock s)
     = chacha20.mkChaCha20 ((counter + 1) mod 2 ^ 32) (chacha20.key s)
         (chacha20.nonce s) (Spec.block kb nb counter)
  /\ (counter + 1 < 2 ^ 32 ->
      chacha20.counter (snd (chacha20.CreateBlock s)) = counter + 1).
Proof.
  intros Hk Hkb Hn Hnb Hc Hcb s counter.
  destruct (key_words kb Hk Hkb) as [_ [Hkw Hkl]].
  destruct (nonce_words nb Hn Hnb) as [_ [Hnw Hnl]].
  destruct (counter_word cb Hc Hcb) as [_ Hcw].
  assert (Hnew := NewChaCha20_spec kb nb cb Hk Hkb Hn Hnb Hc Hcb).
  destruct (createBlocks_fields n (chacha20.NewChaCha20 kb nb cb))
    as [Hkey Hnonce].
  assert (Hcnt : chacha20.counter s = counter).
  { unfold s. rewrite createBlocks_counter; rewrite Hnew; [reflexivity|].
    exact Hcw. }
  fold s in Hkey, Hnonce. rewrite Hnew in Hkey, Hnonce.
  cbn [chacha20.key chacha20.nonce] in Hkey, Hnonce.
  assert (Hblock : blockOf (chacha20.key s) (chacha20.nonce s)
                     (chacha20.counter s) = Spec.block kb nb counter).
  { rewrite Hkey, Hnonce, Hcnt, block_unfold.
    apply blockOf_spec; try assumption.
    unfold counter, is_word. apply Z.mod_pos_bound. lia. }
  rewrite CreateBlock_unfold, Hblock, Hcnt. cbn [fst snd chacha20.counter].
  repeat split.
  - rewrite <- Hblock. apply blockOf_length.
  - intros Hlt. unfold uint32. apply Z.mod_small.
    assert (0 <= counter) by (apply Z.mod_pos_bound; lia). lia.
Qed.

Lemma CreateBlock_spec_witness :
  length rfc_key = 32%nat /\ bytes_ok rfc_key
  /\ length rfc_nonce = 12%nat /\ bytes_ok rfc_nonce
  /\ length [1; 0; 0; 0] = 4%nat /\ bytes_ok [1; 0; 0; 0]
  /\ fst (chacha20.CreateBlock
            (snd (createBlocks 0 (chacha20.NewChaCha20 rfc_key rfc_nonce
                                    [1; 0; 0; 0]))))
     = Spec.block rfc_key rfc_nonce ((Spec.le_int [1; 0; 0; 0] + 0) mod 2 ^ 32).
Proof.
  assert (Hk : length rfc_key = 32%nat) by reflexivity.
  assert (Hkb : bytes_ok rfc_key)
    by (unfold bytes_ok, is_byte; repeat constructor; vm_compute; discriminate).
  assert (Hn : length rfc_nonce = 12%nat) by reflexivity.
  assert (Hnb : bytes_ok rfc_nonce)
    by (unfold bytes_ok, is_byte; repeat constructor; vm_compute; discriminate).
  assert (Hc : length [1; 0; 0; 0] = 4%nat) by reflexivity.
  assert (Hcb : bytes_ok [1; 0; 0; 0])
    by (unfold bytes_ok, is_byte; repeat constructor; vm_compute; discriminate).
  repeat (split; [assumption|]).
  exact (proj1 (proj2 (CreateBlock_spec rfc_key rfc_nonce [1; 0; 0; 0] 0
                         Hk Hkb Hn Hnb Hc Hcb))).
Defined.

(** ** HChaCha20 *)

Lemma subkey_bytes st :
  length st = 16%nat ->
  putWords (slice st 12 16) 0 16 (putWords (slice st 0 4) 0 0 (repeat 0 32))
  = Spec.word_bytes (firstn 4 st) ++ Spec.word_bytes (skipn 12 st).
Proof.
  intros Hlen. unfold slice. cbn [Nat.sub skipn].
  rewrite (firstn_all2 (skipn 12 st)) by (rewrite length_skipn; lia).
  change (repeat 0 32) with ([] ++ repeat 0 16 ++ repeat 0 16).
  rewrite putWords_spec;
    [| reflexivity | rewrite length_firstn, repeat_length; lia].
  cbn [app].
  rewrite <- (app_nil_r (repeat 0 16)).
  rewrite putWords_spec.
  - now rewrite app_nil_r.
  - rewrite word_bytes_length, length_firstn. lia.
  - rewrite repeat_length, length_skipn. lia.
Qed.

Lemma TwentyRounds_unfold c k n st :
  xchacha20.TwentyRounds (chacha20.mkChaCha20 c k n st)
  = Nat.iter 10 dround (chacha20.initState k n c).
Proof.
  unfold xchacha20.TwentyRounds. rewrite iter_doubleRound. reflexivity.
Qed.

Lemma hchacha_nonce_words nonce :
  length nonce = 16%nat -> bytes_ok nonce ->
  Spec.words nonce
  = Spec.le_int (slice nonce 0 4) :: Spec.words (slice nonce 4 16)
  /\ length (slice nonce 0 4) = 4%nat /\ bytes_ok (slice nonce 0 4)
  /\ length (slice nonce 4 16) = 12%nat /\ bytes_ok (slice nonce 4 16).
Proof.
  intros Hlen Hok.
  do 16 (destruct nonce as [|? nonce]; [discriminate Hlen|]).
  destruct nonce; [|discriminate Hlen].
  split; [reflexivity|].
  split_bytes Hok. unfold slice. cbn [Nat.sub skipn firstn].
  repeat split; try reflexivity; unfold bytes_ok;
    repeat (apply Forall_cons; [assumption|]); apply Forall_nil.
Qed.

Lemma subkey_unfold key nonce :
  Spec.subkey key nonce
  = Spec.word_bytes
      (firstn 4 (Nat.iter 10 Spec.double_round
                   (Spec.constants ++ Spec.words key ++ Spec.words nonce)))
    ++ Spec.word_bytes
         (skipn 12 (Nat.iter 10 Spec.double_round
                      (Spec.constants ++ Spec.words key ++ Spec.words nonce))).
Proof. reflexivity. Qed.

Lemma HChaCha20_state key nonce :
  length key = 32%nat -> bytes_ok key ->
  length nonce = 16%nat -> bytes_ok nonce ->
  chacha20.state (xchacha20.hchacha20 (xchacha20.NewHChaCha20 key nonce))
  = Spec.constants ++ Spec.words key ++ Spec.words nonce.
Proof.
  intros Hk Hkb Hn Hnb.
  destruct (hchacha_nonce_words nonce Hn Hnb) as [Hw [Hcl [Hcb [Hsl Hsb]]]].
  destruct (key_words key Hk Hkb) as [_ [Hkw Hkl]].
  destruct (nonce_words _ Hsl Hsb) as [_ [Hnw Hnl]].
  unfold xchacha20.NewHChaCha20. cbn [xchacha20.hchacha20].
  rewrite (NewChaCha20_spec key _ _ Hk Hkb Hsl Hsb Hcl Hcb).
  cbn [chacha20.state].
  rewrite initState_spec by assumption. now rewrite Hw.
Qed.

Lemma GenerateSubKey_words key nonce :
  length key = 32%nat -> bytes_ok key ->
  length nonce = 16%nat -> bytes_ok nonce ->
  xchacha20.GenerateSubKey (xchacha20.NewHChaCha20 key nonce)
  = Spec.word_bytes
      (firstn 4 (Nat.iter 10 Spec.double_round
                   (Spec.constants ++ Spec.words key ++ Spec.words nonce)))
    ++ Spec.word_bytes
         (skipn 12 (Nat.iter 10 Spec.double_round
                      (Spec.constants ++ Spec.words key ++ Spec.words nonce)))
  /\ length (Nat.iter 10 Spec.double_round
               (Spec.constants ++ Spec.words key ++ Spec.words nonce))
     = 16%nat.
Proof.
  intros Hk Hkb Hn Hnb.
  destruct (hchacha_nonce_words nonce Hn Hnb) as [Hw [Hcl [Hcb [Hsl Hsb]]]].
  destruct (key_words key Hk Hkb) as [_ [Hkw Hkl]].
  destruct (nonce_words _ Hsl Hsb) as [_ [Hnw Hnl]].
  destruct (counter_word _ Hcl Hcb) as [_ Hcw].
  assert (Hinit :
    chacha20.initState (Spec.words key) (Spec.words (slice nonce 4 16))
      (Spec.le_int (slice nonce 0 4))
    = Spec.constants ++ Spec.words key ++ Spec.words nonce).
  { rewrite initState_spec by assumption. now rewrite Hw. }
  assert (Hwords :
    words_ok (Spec.constants ++ Spec.words key ++ Spec.words nonce)).
  { rewrite Hw. unfold words_ok. rewrite !Forall_app.
    repeat split; try assumption; [apply constants_words|].
    constructor; assumption. }
  destruct (iter_dround_spec 10 _ Hwords) as [Heq _].
  assert (Hlen : length (Nat.iter 10 Spec.double_round
                           (Spec.constants ++ Spec.words key
                              ++ Spec.words nonce)) = 16%nat).
  { rewrite <- Heq, iter_dround_length, <- Hinit. apply initState_length. }
  split; [|exact Hlen].
  unfold xchacha20.GenerateSubKey, xchacha20.NewHChaCha20.
  cbn [xchacha20.hchacha20]. cbv zeta.
  rewrite (NewChaCha20_spec key _ _ Hk Hkb Hsl Hsb Hcl Hcb).
  rewrite TwentyRounds_unfold, Hinit, Heq.
  apply subkey_bytes. exact Hlen.
Qed.

(** C8 -- HChaCha20 subkey derivation.  For a 32-byte key and a 16-byte
    nonce, [GenerateSubKey] on the instance built by [NewHChaCha20] returns
    32 bytes: the little-endian bytes of words 0-3 followed by those of
    words 12-15 of the state got from (constants, key words, the four nonce
    words, the first of them in the counter position) by 10 double rounds,
    with no feed-forward addition. *)
Theorem GenerateSubKey_spec (key nonce : list Z) :
  length key = 32%nat -> bytes_ok key ->
  length nonce = 16%nat -> bytes_ok nonce ->
  let subkey := xchacha20.GenerateSubKey (xchacha20.NewHChaCha20 key nonce) in
  let st :=
    Nat.iter 10 Spec.double_round
      (Spec.constants ++ Spec.words key ++ Spec.words nonce) in
  subkey = Spec.word_bytes (firstn 4 st) ++ Spec.word_bytes (skipn 12 st)
  /\ subkey = Spec.subkey key nonce
  /\ length subkey = 32%nat
  /\ chacha20.state (xchacha20.hchacha20 (xchacha20.NewHChaCha20 key nonce))
     = Spec.constants ++ Spec.words key ++ Spec.words nonce.
Proof.
  intros Hk Hkb Hn Hnb. cbv zeta.
  pose proof (GenerateSubKey_words key nonce Hk Hkb Hn Hnb) as [Hsub Hlen].
  split; [|split; [|split]].
  - exact Hsub.
  - rewrite Hsub, subkey_unfold. reflexivity.
  - rewrite Hsub, length_app, !word_bytes_length, length_firstn, length_skipn.
    rewrite Hlen. reflexivity.
  - apply HChaCha20_state; assumption.
Qed.

Lemma GenerateSubKey_spec_witness :
  length rfc_key = 32%nat /\ bytes_ok rfc_key
  /\ length hchacha_nonce = 16%nat /\ bytes_ok hchacha_nonce
  /\ xchacha20.GenerateSubKey (xchacha20.NewHChaCha20 rfc_key hchacha_nonce)
     = Spec.subkey rfc_key hchacha_nonce.
Proof.
  assert (Hk : length rfc_key = 32%nat) by reflexivity.
  assert (Hkb : bytes_ok rfc_key)
    by (unfold bytes_ok, is_byte; repeat constructor; vm_compute; discriminate).
  assert (Hn : length hchacha_nonce = 16%nat) by reflexivity.
  assert (Hnb : bytes_ok hchacha_nonce)
    by (unfold bytes_ok, is_byte; repeat constructor; vm_compute; discriminate).
  repeat (split; [assumption|]).
  exact (proj1 (proj2 (GenerateSubKey_spec rfc_key hchacha_nonce
                         Hk Hkb Hn Hnb))).
Defined.

(** ** The block counter at the end of its range *)

Lemma createBlocks_explicit n : forall c,
  is_word (chacha20.counter c) ->
  fst (createBlocks n c)
  = flat_map
      (fun j =>
         Spec.word_bytes
           (blockOf (chacha20.key c) (chacha20.nonce c)
              ((chacha20.counter c + Z.of_nat j) mod 2 ^ 32)))
      (seq 0 n).
Proof.
  induction n as [|n IH]; intros c Hc; [reflexivity|].
  rewrite createBlocks_S, CreateBlock_unfold. cbn [fst snd].
  rewrite IH by (cbn [chacha20.counter]; apply uint32_word).
  cbn [chacha20.key chacha20.nonce chacha20.counter].
  cbn [seq flat_map].
  replace ((chacha20.counter c + Z.of_nat 0) mod 2 ^ 32)
    with (chacha20.counter c)
    by (cbn [Z.of_nat]; rewrite Z.add_0_r, Z.mod_small by exact Hc;
        reflexivity).
  apply f_equal.
  rewrite <- seq_shift.
  rewrite !flat_map_concat_map, map_map. apply f_equal.
  apply map_ext. intros j. unfold uint32.
  rewrite Zplus_mod_idemp_l.
  replace (chacha20.counter c + 1 + Z.of_nat j)
    with (chacha20.counter c + Z.of_nat (S j)) by lia.
  reflexivity.
Qed.

(** C6, as stated, fails: started at counter 2^32 - 1, [XORWithKeyStream]
    on 65 bytes returns all 65 bytes and leaves the counter at 1. *)
Lemma counter_wraps_silently : ~ overflow_surfaced.
Proof.
  intros H.
  apply (H (chacha20.NewChaCha20 rfc_key rfc_nonce [255; 255; 255; 255])
           (repeat 0 65)).
  - vm_compute. split; [discriminate | reflexivity].
  - split; vm_compute; reflexivity.
Qed.

(** After the wrap the keystream of counter 0 is used again. *)
Example keystream_reused_after_wrap :
  skipn 64
    (fst (chacha20.XORWithKeyStream
            (chacha20.NewChaCha20 rfc_key rfc_nonce [255; 255; 255; 255])
            (repeat 0 128)))
  = fst (chacha20.XORWithKeyStream
           (chacha20.NewChaCha20 rfc_key rfc_nonce [0; 0; 0; 0])
           (repeat 0 64)).
Proof. vm_compute. reflexivity. Qed.

(** C6, amended -- the counter wraps modulo 2^32 and nothing is reported.
    [CreateBlock] always returns its 16 words and [XORWithKeyStream] all [N]
    bytes (neither has an error result); [CreateBlock] takes the counter
    [2^32 - 1] to [0]; after [XORWithKeyStream] the counter is
    [(counter + ceil(N/64)) mod 2^32], and block [j] of the keystream is the
    block of counter [(counter + j) mod 2^32]. *)
Theorem counter_wraps_mod_2_32 (c : chacha20.ChaCha20) (data : list Z) :
  is_word (chacha20.counter c) ->
  let blocks := ceilDiv (length data) 64 in
  length (fst (chacha20.CreateBlock c)) = 16%nat
  /\ chacha20.counter (snd (chacha20.CreateBlock c))
     = (chacha20.counter c + 1) mod 2 ^ 32
  /\ (chacha20.counter c = 2 ^ 32 - 1 ->
      chacha20.counter (snd (chacha20.CreateBlock c)) = 0)
  /\ length (fst (chacha20.XORWithKeyStream c data)) = length data
  /\ chacha20.counter (snd (chacha20.XORWithKeyStream c data))
     = (chacha20.counter c + Z.of_nat blocks) mod 2 ^ 32
  /\ fst (chacha20.XORWithKeyStream c data)
     = Spec.zip_with Z.lxor data
         (flat_map
            (fun j =>
               Spec.word_bytes
                 (blockOf (chacha20.key c) (chacha20.nonce c)
                    ((chacha20.counter c + Z.of_nat j) mod 2 ^ 32)))
            (seq 0 blocks)).
Proof.
  intros Hc blocks.
  split; [rewrite CreateBlock_unfold; apply blockOf_length|].
  split; [rewrite CreateBlock_unfold; reflexivity|].
  split; [intros E; rewrite CreateBlock_unfold; cbn [snd chacha20.counter];
          rewrite E; reflexivity|].
  split; [apply XORWithKeyStream_length|].
  rewrite XORWithKeyStream_spec. cbn [fst snd]. fold blocks.
  split; [now apply createBlocks_counter|].
  now rewrite createBlocks_explicit.
Qed.

Lemma counter_wraps_mod_2_32_witness :
  is_word (chacha20.counter
             (chacha20.NewChaCha20 rfc_key rfc_nonce [255; 255; 255; 255]))
  /\ chacha20.counter
       (snd (chacha20.CreateBlock
               (chacha20.NewChaCha20 rfc_key rfc_nonce [255; 255; 255; 255])))
     = (chacha20.counter
          (chacha20.NewChaCha20 rfc_key rfc_nonce [255; 255; 255; 255]) + 1)
         mod 2 ^ 32.
Proof.
  assert (H : is_word
                (chacha20.counter
                   (chacha20.NewChaCha20 rfc_key rfc_nonce
                      [255; 255; 255; 255])))
    by (vm_compute; split; [discriminate | reflexivity]).
  split; [exact H|].
  exact (proj1 (proj2 (counter_wraps_mod_2_32 _ [] H))).
Defined.

(** ** AEAD key derivation and framing *)

Lemma CreateBlock_fresh kb nb cb :
  length kb = 32%nat -> bytes_ok kb ->
  length nb = 12%nat -> bytes_ok nb ->
  length cb = 4%nat -> bytes_ok cb ->
  chacha20.CreateBlock (chacha20.NewChaCha20 kb nb cb)
  = (Spec.block kb nb (Spec.le_int cb),
     chacha20.mkChaCha20 (uint32 (Spec.le_int cb + 1)) (Spec.words kb)
       (Spec.words nb) (Spec.block kb nb (Spec.le_int cb))).
Proof.
  intros Hk Hkb Hn Hnb Hc Hcb.
  destruct (key_words kb Hk Hkb) as [_ [Hkw Hkl]].
  destruct (nonce_words nb Hn Hnb) as [_ [Hnw Hnl]].
  destruct (counter_word cb Hc Hcb) as [_ Hcw].
  rewrite (NewChaCha20_spec kb nb cb Hk Hkb Hn Hnb Hc Hcb).
  rewrite CreateBlock_unfold.
  cbn [chacha20.key chacha20.nonce chacha20.counter].
  rewrite blockOf_spec by assumption.
  rewrite <- block_unfold. reflexivity.
Qed.

Lemma word_bytes_first8 ws :
  Spec.word_bytes (firstn 8 ws) = firstn 32 (Spec.word_bytes ws).
Proof. exact (word_bytes_firstn 8 ws). Qed.

Lemma CreateBlock_length c : length (fst (chacha20.CreateBlock c)) = 16%nat.
Proof. rewrite CreateBlock_unfold. cbn [fst]. apply blockOf_length. Qed.

Lemma polyKey_bytes B :
  length B = 16%nat ->
  putWords (slice B 0 8) 0 0 (repeat 0 32) = firstn 32 (Spec.word_bytes B).
Proof.
  intros Hlen. unfold slice. rewrite skipn_O.
  change (8 - 0)%nat with 8%nat.
  rewrite putWords_fresh by (rewrite length_firstn, Hlen; reflexivity).
  apply word_bytes_first8.
Qed.

Lemma NewChaCha20Poly1305_unfold key nonce B c :
  chacha20.CreateBlock (chacha20.NewChaCha20 key nonce [0; 0; 0; 0]) = (B, c) ->
  chacha20poly1305.NewChaCha20Poly1305 key nonce
  = chacha20poly1305.mkChaCha20Poly1305 key nonce c
      (poly1305.NewPoly1305 (putWords (slice B 0 8) 0 0 (repeat 0 32))).
Proof.
  intros H.
  unfold chacha20poly1305.NewChaCha20Poly1305,
    chacha20poly1305.poly1305KeyGen.
  rewrite H. reflexivity.
Qed.

Lemma le_int_zero4 : Spec.le_int [0; 0; 0; 0] = 0.
Proof. reflexivity. Qed.

Lemma uint32_one : uint32 (0 + 1) = 1.
Proof. reflexivity. Qed.

(** Constructing the AEAD instance produces the block of counter 0, keeps
    its first 32 bytes as the Poly1305 key and leaves the counter at 1. *)
Lemma aead_key_derivation key nonce :
  length key = 32%nat -> bytes_ok key ->
  length nonce = 12%nat -> bytes_ok nonce ->
  chacha20poly1305.chacha20 (chacha20poly1305.NewChaCha20Poly1305 key nonce)
  = snd (chacha20.CreateBlock
           (chacha20.NewChaCha20 key nonce [0; 0; 0; 0]))
  /\ chacha20.counter
       (chacha20poly1305.chacha20
          (chacha20poly1305.NewChaCha20Poly1305 key nonce)) = 1
  /\ chacha20poly1305.poly1305
       (chacha20poly1305.NewChaCha20Poly1305 key nonce)
     = poly1305.NewPoly1305
         (firstn 32 (Spec.word_bytes (Spec.block key nonce 0))).
Proof.
  intros Hk Hkb Hn Hnb.
  assert (Hc : length [0; 0; 0; 0] = 4%nat) by reflexivity.
  assert (Hcb : bytes_ok [0; 0; 0; 0])
    by (repeat constructor; unfold is_byte; lia).
  pose proof (CreateBlock_fresh key nonce [0; 0; 0; 0] Hk Hkb Hn Hnb Hc Hcb)
    as Hfresh.
  rewrite le_int_zero4, uint32_one in Hfresh.
  pose proof (CreateBlock_length
                (chacha20.NewChaCha20 key nonce [0; 0; 0; 0])) as Hlen.
  destruct (chacha20.CreateBlock
              (chacha20.NewChaCha20 key nonce [0; 0; 0; 0])) as [B c] eqn:E.
  rewrite (NewChaCha20Poly1305_unfold key nonce B c E).
  cbn [fst snd chacha20poly1305.chacha20 chacha20poly1305.poly1305] in *.
  injection Hfresh as HB Hcc.
  split; [reflexivity|]. split.
  - rewrite Hcc. reflexivity.
  - rewrite polyKey_bytes by exact Hlen. rewrite HB. reflexivity.
Qed.

Lemma huge_aad_length : Z.of_nat (length huge_aad) = 4294967296.
Proof.
  unfold huge_aad. rewrite repeat_length. apply Z2Nat.id. discriminate.
Qed.

(** C5, the defect: the length fields are written with
    [PutUint32(uint32(len))], so for an associated-data buffer of 2^32 bytes
    the framed input is not the specified one (its first length field is
    eight zero bytes, not the 64-bit little-endian encoding of 2^32). *)
Theorem length_field_truncated :
  chacha20poly1305.generatePoly1305Input huge_aad []
  <> Spec.auth_input huge_aad [].
Proof.
  rewrite generatePoly1305Input_spec. unfold Spec.auth_input.
  rewrite huge_aad_length.
  intros E. do 4 apply app_inv_head in E.
  vm_compute in E. discriminate E.
Qed.

(** ** Determinism of the block function *)

(** The block depends on (key, nonce, counter) only. *)
Lemma CreateBlock_deterministic c1 c2 :
  chacha20.key c1 = chacha20.key c2 ->
  chacha20.nonce c1 = chacha20.nonce c2 ->
  chacha20.counter c1 = chacha20.counter c2 ->
  fst (chacha20.CreateBlock c1) = fst (chacha20.CreateBlock c2).
Proof. intros Hk Hn Hc. now rewrite (CreateBlock_ext c1 c2 Hk Hn Hc). Qed.

(** The second of two successive calls computes the block of the next
    counter. *)
Lemma CreateBlock_successive c :
  fst (chacha20.CreateBlock (snd (chacha20.CreateBlock c)))
  = blockOf (chacha20.key c) (chacha20.nonce c)
      (uint32 (chacha20.counter c + 1)).
Proof. rewrite !CreateBlock_unfold. reflexivity. Qed.

Example successive_blocks_differ :
  fst (chacha20.CreateBlock
         (snd (chacha20.CreateBlock
                 (chacha20.NewChaCha20 rfc_key rfc_nonce [1; 0; 0; 0]))))
  <> fst (chacha20.CreateBlock
            (chacha20.NewChaCha20 rfc_key rfc_nonce [1; 0; 0; 0])).
Proof. vm_compute. intros E. discriminate E. Qed.

(** ** Published test vectors *)

Example quarterRound_rfc8439_2_1_1 :
  chacha20.quarterRound 0x11111111 0x01020304 0x9b8d6f43 0x01234567
  = (0xea2a92f4, 0xcb1cf8ce, 0x4581472e, 0x5881c4bb).
Proof. vm_compute. reflexivity. Qed.

Example CreateBlock_rfc8439_2_3_2 :
  fst (chacha20.CreateBlock
         (chacha20.NewChaCha20 rfc_key rfc_nonce [1; 0; 0; 0]))
  = [0xe4e7f110; 0x15593bd1; 0x1fdd0f50; 0xc47120a3;
     0xc7f4d1c7; 0x0368c033; 0x9aaa2204; 0x4e6cd4c3;
     0x466482d2; 0x09aa9f07; 0x05d7c214; 0xa2028bd9;
     0xd19c12b5; 0xb94e16de; 0xe883d0cb; 0x4e3c50a2].
Proof. vm_compute. reflexivity. Qed.

Example GenerateTag_rfc8439_2_5_2 :
  fst (poly1305.GenerateTag (poly1305.NewPoly1305 poly_key) poly_msg)
  = [0xa8; 0x06; 0x1d; 0xc1; 0x30; 0x51; 0x36; 0xc6;
     0xc2; 0x2b; 0x8b; 0xaf; 0x0c; 0x01; 0x27; 0xa9].
Proof. vm_compute. reflexivity. Qed.

Example Encrypt_rfc8439_2_8_2 :
  snd (fst (chacha20poly1305.Encrypt
              (chacha20poly1305.NewChaCha20Poly1305 aead_key aead_nonce)
              sunscreen aead_aad))
  = [0x1a; 0xe1; 0x0b; 0x59; 0x4f; 0x09; 0xe2; 0x6a;
     0x7e; 0x90; 0x2e; 0xcb; 0xd0; 0x60; 0x06; 0x91].
Proof. vm_compute. reflexivity. Qed.

Example GenerateSubKey_draft_xchacha_2_2_1 :
  xchacha20.GenerateSubKey (xchacha20.NewHChaCha20 rfc_key hchacha_nonce)
  = [0x82; 0x41; 0x3b; 0x42; 0x27; 0xb2; 0x7b; 0xfe;
     0xd3; 0x0e; 0x42; 0x50; 0x8a; 0x87; 0x7d; 0x73;
     0xa0; 0xf9; 0xe4; 0xd5; 0x8a; 0x74; 0xa8; 0x53;
     0xc1; 0x2e; 0xc4; 0x13; 0x26; 0xd3; 0xec; 0xdc].
Proof. vm_compute. reflexivity. Qed.

(** * Further properties of the code *)
(** * Further properties *)

(** ** The AEAD on a fresh instance *)

Lemma word_bytes_ok ws : bytes_ok (Spec.word_bytes ws).
Proof.
  induction ws as [|w ws IH]; [constructor|].
  unfold Spec.word_bytes, bytes_ok in *. cbn [flat_map].
  apply Forall_app. split; [apply le_bytes_ok | exact IH].
Qed.

Lemma polyKey_ok B :
  length B = 16%nat ->
  length (firstn 32 (Spec.word_bytes B)) = 32%nat
  /\ bytes_ok (firstn 32 (Spec.word_bytes B)).
Proof.
  intros H. split.
  - rewrite length_firstn, word_bytes_length, H. reflexivity.
  - apply firstn_ok, word_bytes_ok.
Qed.

Lemma poly1305_tag_unfold pk msg :
  Spec.poly1305_tag pk msg
  = Spec.tag_of (Spec.accumulate (Spec.r_of pk) 0 msg) (Spec.s_of pk).
Proof. reflexivity. Qed.

Lemma GenerateTag_fresh pk msg :
  length pk = 32%nat -> bytes_ok pk ->
  fst (poly1305.GenerateTag (poly1305.NewPoly1305 pk) msg)
  = Spec.poly1305_tag pk msg.
Proof.
  intros Hlen Hok. rewrite (NewPoly1305_spec pk Hlen Hok).
  rewrite GenerateTag_tag.
  - rewrite poly1305_tag_unfold. reflexivity.
  - cbn [poly1305.accum]. lia.
  - cbn [poly1305.s]. apply le_int_nonneg, skipn_ok, Hok.
Qed.

Lemma block_length kb nb cb :
  length kb = 32%nat -> bytes_ok kb ->
  length nb = 12%nat -> bytes_ok nb ->
  length cb = 4%nat -> bytes_ok cb ->
  length (Spec.block kb nb (Spec.le_int cb)) = 16%nat.
Proof.
  intros Hk Hkb Hn Hnb Hc Hcb.
  pose proof (CreateBlock_fresh kb nb cb Hk Hkb Hn Hnb Hc Hcb) as Hfresh.
  pose proof (CreateBlock_length (chacha20.NewChaCha20 kb nb cb)) as Hlen.
  destruct (chacha20.CreateBlock (chacha20.NewChaCha20 kb nb cb)) as [B c].
  cbn [fst] in Hlen. injection Hfresh as HB _. now rewrite <- HB.
Qed.

Lemma NewChaCha20Poly1305_fresh key nonce :
  length key = 32%nat -> bytes_ok key ->
  length nonce = 12%nat -> bytes_ok nonce ->
  chacha20poly1305.NewChaCha20Poly1305 key nonce
  = chacha20poly1305.mkChaCha20Poly1305 key nonce
      (chacha20.mkChaCha20 1 (Spec.words key) (Spec.words nonce)
         (Spec.block key nonce 0))
      (poly1305.NewPoly1305
         (firstn 32 (Spec.word_bytes (Spec.block key nonce 0))))
  /\ length (Spec.block key nonce 0) = 16%nat.
Proof.
  intros Hk Hkb Hn Hnb.
  assert (Hc : length [0; 0; 0; 0] = 4%nat) by reflexivity.
  assert (Hcb : bytes_ok [0; 0; 0; 0])
    by (repeat constructor; unfold is_byte; lia).
  pose proof (CreateBlock_fresh key nonce [0; 0; 0; 0] Hk Hkb Hn Hnb Hc Hcb)
    as Hfresh.
  pose proof (block_length key nonce [0; 0; 0; 0] Hk Hkb Hn Hnb Hc Hcb)
    as Hlen.
  rewrite le_int_zero4 in Hlen.
  rewrite le_int_zero4, uint32_one in Hfresh.
  split; [|exact Hlen].
  rewrite (NewChaCha20Poly1305_unfold key nonce _ _ Hfresh).
  rewrite polyKey_bytes by exact Hlen. reflexivity.
Qed.

Lemma createBlocks_keystream n key nonce c st :
  length key = 32%nat -> bytes_ok key ->
  length nonce = 12%nat -> bytes_ok nonce ->
  is_word c ->
  fst (createBlocks n
         (chacha20.mkChaCha20 c (Spec.words key) (Spec.words nonce) st))
  = keystream key nonce c n.
Proof.
  intros Hk Hkb Hn Hnb Hc.
  destruct (key_words key Hk Hkb) as [_ [Hkw Hkl]].
  destruct (nonce_words nonce Hn Hnb) as [_ [Hnw Hnl]].
  rewrite createBlocks_explicit by exact Hc.
  cbn [chacha20.key chacha20.nonce chacha20.counter].
  unfold keystream. rewrite !flat_map_concat_map. apply f_equal.
  apply map_ext. intros j.
  rewrite blockOf_spec, <- block_unfold; try assumption; [reflexivity|].
  unfold is_word. apply Z.mod_pos_bound. lia.
Qed.

(** X1 -- [Encrypt] on a fresh instance is the AEAD of RFC 8439: the
    ciphertext is the plaintext XORed with the keystream of the blocks of
    counter 1, 2, ..., and the tag is the Poly1305 tag, under the first 32
    bytes of the block of counter 0, of the framed (aad, ciphertext). *)
Theorem Encrypt_fresh (key nonce plaintext aad : list Z) :
  length key = 32%nat -> bytes_ok key ->
  length nonce = 12%nat -> bytes_ok nonce ->
  let polyKey := firstn 32 (Spec.word_bytes (Spec.block key nonce 0)) in
  let ciphertext :=
    Spec.zip_with Z.lxor plaintext
      (keystream key nonce 1 (ceilDiv (length plaintext) 64)) in
  fst (chacha20poly1305.Encrypt
         (chacha20poly1305.NewChaCha20Poly1305 key nonce) plaintext aad)
  = (ciphertext,
     Spec.poly1305_tag polyKey
       (chacha20poly1305.generatePoly1305Input aad ciphertext)).
Proof.
  intros Hk Hkb Hn Hnb. cbv zeta.
  destruct (NewChaCha20Poly1305_fresh key nonce Hk Hkb Hn Hnb) as [-> Hlen].
  destruct (polyKey_ok _ Hlen) as [Hpl Hpb].
  unfold chacha20poly1305.Encrypt.
  cbn [chacha20poly1305.chacha20 chacha20poly1305.poly1305].
  rewrite XORWithKeyStream_spec.
  rewrite createBlocks_keystream
    by (try assumption; unfold is_word; lia).
  pose proof (GenerateTag_fresh _
                (chacha20poly1305.generatePoly1305Input aad
                   (Spec.zip_with Z.lxor plaintext
                      (keystream key nonce 1 (ceilDiv (length plaintext) 64))))
                Hpl Hpb) as Htag.
  destruct (poly1305.GenerateTag _ _) as [tag poly].
  cbn [fst] in *. now rewrite Htag.
Qed.

Lemma Encrypt_fresh_witness :
  length aead_key = 32%nat /\ bytes_ok aead_key
  /\ length aead_nonce = 12%nat /\ bytes_ok aead_nonce
  /\ fst (chacha20poly1305.Encrypt
            (chacha20poly1305.NewChaCha20Poly1305 aead_key aead_nonce)
            sunscreen aead_aad)
     = (Spec.zip_with Z.lxor sunscreen
          (keystream aead_key aead_nonce 1 (ceilDiv (length sunscreen) 64)),
        Spec.poly1305_tag
          (firstn 32 (Spec.word_bytes (Spec.block aead_key aead_nonce 0)))
          (chacha20poly1305.generatePoly1305Input aead_aad
             (Spec.zip_with Z.lxor sunscreen
                (keystream aead_key aead_nonce 1
                   (ceilDiv (length sunscreen) 64))))).
Proof.
  assert (Hk : length aead_key = 32%nat) by reflexivity.
  assert (Hkb : bytes_ok aead_key)
    by (unfold bytes_ok, is_byte; repeat constructor; vm_compute; discriminate).
  assert (Hn : length aead_nonce = 12%nat) by reflexivity.
  assert (Hnb : bytes_ok aead_nonce)
    by (unfold bytes_ok, is_byte; repeat constructor; vm_compute; discriminate).
  split; [exact Hk|]. split; [exact Hkb|]. split; [exact Hn|].
  split; [exact Hnb|].
  exact (Encrypt_fresh aead_key aead_nonce sunscreen aead_aad Hk Hkb Hn Hnb).
Defined.

(** X2 -- [Decrypt] on a fresh instance: it accepts exactly the Poly1305 tag
    of the framed (aad, ciphertext) under the first 32 bytes of the block of
    counter 0.  With that tag it returns the ciphertext XORed with the
    keystream from counter 1 on, and no error; with any other 16-byte tag it
    returns no plaintext and [ErrInvalidTag]. *)
Theorem Decrypt_fresh (key nonce ciphertext aad tag : list Z) :
  length key = 32%nat -> bytes_ok key ->
  length nonce = 12%nat -> bytes_ok nonce ->
  length tag = 16%nat ->
  let polyKey := firstn 32 (Spec.word_bytes (Spec.block key nonce 0)) in
  let expected :=
    Spec.poly1305_tag polyKey
      (chacha20poly1305.generatePoly1305Input aad ciphertext) in
  fst (chacha20poly1305.Decrypt
         (chacha20poly1305.NewChaCha20Poly1305 key nonce) ciphertext aad tag)
  = if list_eq_dec Z.eq_dec tag expected
    then (Spec.zip_with Z.lxor ciphertext
            (keystream key nonce 1 (ceilDiv (length ciphertext) 64)),
          None)
    else ([], Some chacha20poly1305.ErrInvalidTag).
Proof.
  intros Hk Hkb Hn Hnb Htag. cbv zeta.
  destruct (NewChaCha20Poly1305_fresh key nonce Hk Hkb Hn Hnb) as [-> Hlen].
  destruct (polyKey_ok _ Hlen) as [Hpl Hpb].
  unfold chacha20poly1305.Decrypt.
  cbn [chacha20poly1305.chacha20 chacha20poly1305.poly1305].
  pose proof (GenerateTag_fresh _
                (chacha20poly1305.generatePoly1305Input aad ciphertext)
                Hpl Hpb) as Hexp.
  pose proof (GenerateTag_length
                (poly1305.NewPoly1305
                   (firstn 32 (Spec.word_bytes (Spec.block key nonce 0))))
                (chacha20poly1305.generatePoly1305Input aad ciphertext))
    as Hclen.
  destruct (poly1305.GenerateTag _ _) as [computed poly].
  cbn [fst] in Hexp, Hclen. rewrite <- Hexp.
  pose proof (tagsDiffer_neq tag computed Htag Hclen) as Hneq.
  destruct (chacha20poly1305.tagsDiffer tag computed).
  - destruct (list_eq_dec Z.eq_dec tag computed) as [E|E]; [|reflexivity].
    exfalso. now apply (proj1 Hneq).
  - destruct (list_eq_dec Z.eq_dec tag computed) as [E|E].
    + rewrite XORWithKeyStream_spec.
      rewrite createBlocks_keystream
        by (try assumption; unfold is_word; lia).
      reflexivity.
    + exfalso. apply Hneq in E. discriminate E.
Qed.

Lemma Decrypt_fresh_witness :
  length aead_key = 32%nat /\ bytes_ok aead_key
  /\ length aead_nonce = 12%nat /\ bytes_ok aead_nonce
  /\ length zero_tag = 16%nat
  /\ fst (chacha20poly1305.Decrypt
            (chacha20poly1305.NewChaCha20Poly1305 aead_key aead_nonce)
            [1; 2; 3] aead_aad zero_tag)
     = ([], Some chacha20poly1305.ErrInvalidTag).
Proof.
  assert (Hk : length aead_key = 32%nat) by reflexivity.
  assert (Hkb : bytes_ok aead_key)
    by (unfold bytes_ok, is_byte; repeat constructor; vm_compute; discriminate).
  assert (Hn : length aead_nonce = 12%nat) by reflexivity.
  assert (Hnb : bytes_ok aead_nonce)
    by (unfold bytes_ok, is_byte; repeat constructor; vm_compute; discriminate).
  assert (Ht : length zero_tag = 16%nat) by reflexivity.
  split; [exact Hk|]. split; [exact Hkb|]. split; [exact Hn|].
  split; [exact Hnb|]. split; [exact Ht|].
  rewrite (Decrypt_fresh aead_key aead_nonce [1; 2; 3] aead_aad zero_tag
             Hk Hkb Hn Hnb Ht).
  vm_compute. reflexivity.
Defined.

(** ** The stream cipher as a stream *)

Lemma zip_lxor_swap : forall d e ks,
  Spec.zip_with Z.lxor (Spec.zip_with Z.lxor d e) ks
  = Spec.zip_with Z.lxor (Spec.zip_with Z.lxor d ks) e.
Proof.
  unfold Spec.zip_with.
  induction d as [|x d IH]; intros [|y e] [|k ks]; try reflexivity.
  cbn [combine map fst snd]. rewrite IH. f_equal.
  rewrite !Z.lxor_assoc. f_equal. apply Z.lxor_comm.
Qed.

(** X3 -- the cipher is malleable: XORing a mask [e] into the input XORs
    the same mask into the output, byte for byte. *)
Theorem XORWithKeyStream_malleable (c : chacha20.ChaCha20) (d e : list Z) :
  length e = length d ->
  fst (chacha20.XORWithKeyStream c (Spec.zip_with Z.lxor d e))
  = Spec.zip_with Z.lxor (fst (chacha20.XORWithKeyStream c d)) e.
Proof.
  intros Hlen. rewrite !XORWithKeyStream_spec. cbn [fst].
  rewrite zip_with_length, Hlen, Nat.min_id. apply zip_lxor_swap.
Qed.

Lemma XORWithKeyStream_malleable_witness :
  length [1; 2; 3] = length [7; 7; 7]
  /\ fst (chacha20.XORWithKeyStream
            (chacha20.NewChaCha20 rfc_key rfc_nonce [1; 0; 0; 0])
            (Spec.zip_with Z.lxor [7; 7; 7] [1; 2; 3]))
     = Spec.zip_with Z.lxor
         (fst (chacha20.XORWithKeyStream
                 (chacha20.NewChaCha20 rfc_key rfc_nonce [1; 0; 0; 0])
                 [7; 7; 7])) [1; 2; 3].
Proof.
  assert (H : length [1; 2; 3] = length [7; 7; 7]) by reflexivity.
  split; [exact H|].
  exact (XORWithKeyStream_malleable _ [7; 7; 7] [1; 2; 3] H).
Defined.

Lemma createBlocks_add m : forall n c,
  createBlocks (m + n) c
  = (fst (createBlocks m c) ++ fst (createBlocks n (snd (createBlocks m c))),
     snd (createBlocks n (snd (createBlocks m c)))).
Proof.
  induction m as [|m IH]; intros n c.
  - cbn [Nat.add createBlocks fst snd app]. now destruct (createBlocks n c).
  - change (S m + n)%nat with (S (m + n)).
    rewrite !createBlocks_S, IH. cbn [fst snd].
    now rewrite <- app_assoc.
Qed.

(** X4 -- processing a message in pieces: when the first piece is a whole
    number of 64-byte blocks, running [XORWithKeyStream] on the two pieces
    one after the other on the same instance gives the same bytes and the
    same final instance as running it once on their concatenation. *)
Theorem XORWithKeyStream_app (c : chacha20.ChaCha20) (d1 d2 : list Z) :
  (length d1 mod 64 = 0)%nat ->
  let c1 := snd (chacha20.XORWithKeyStream c d1) in
  chacha20.XORWithKeyStream c (d1 ++ d2)
  = (fst (chacha20.XORWithKeyStream c d1)
       ++ fst (chacha20.XORWithKeyStream c1 d2),
     snd (chacha20.XORWithKeyStream c1 d2)).
Proof.
  intros Hmod c1. unfold c1. rewrite !XORWithKeyStream_spec. cbn [fst snd].
  rewrite length_app.
  replace (ceilDiv (length d1 + length d2) 64)
    with (ceilDiv (length d1) 64 + ceilDiv (length d2) 64)%nat
    by (unfold ceilDiv; lia).
  rewrite createBlocks_add. cbn [fst snd]. f_equal.
  apply zip_with_app. rewrite createBlocks_length. unfold ceilDiv. lia.
Qed.

Lemma XORWithKeyStream_app_witness :
  (length (repeat 0 64) mod 64 = 0)%nat
  /\ chacha20.XORWithKeyStream
       (chacha20.NewChaCha20 rfc_key rfc_nonce [1; 0; 0; 0])
       (repeat 0 64 ++ [1; 2; 3])
     = (fst (chacha20.XORWithKeyStream
               (chacha20.NewChaCha20 rfc_key rfc_nonce [1; 0; 0; 0])
               (repeat 0 64))
          ++ fst (chacha20.XORWithKeyStream
                    (snd (chacha20.XORWithKeyStream
                            (chacha20.NewChaCha20 rfc_key rfc_nonce
                               [1; 0; 0; 0]) (repeat 0 64))) [1; 2; 3]),
        snd (chacha20.XORWithKeyStream
               (snd (chacha20.XORWithKeyStream
                       (chacha20.NewChaCha20 rfc_key rfc_nonce [1; 0; 0; 0])
                       (repeat 0 64))) [1; 2; 3])).
Proof.
  assert (H : (length (repeat 0 64) mod 64 = 0)%nat) by reflexivity.
  split; [exact H|].
  exact (XORWithKeyStream_app _ (repeat 0 64) [1; 2; 3] H).
Defined.

(** ** Padding and framing *)

(** X5 -- [padTo16Bytes] appends zero bytes only, fewer than 16 of them,
    up to the next multiple of 16; an input whose length is already a
    multiple of 16 (the empty one included) comes back unchanged, so padding
    twice is padding once. *)
Theorem padTo16Bytes_contract (data : list Z) :
  let padded := chacha20poly1305.padTo16Bytes data in
  padded = data ++ repeat 0 (length padded - length data)
  /\ length padded = (16 * ceilDiv (length data) 16)%nat
  /\ (length padded - length data < 16)%nat
  /\ (length data mod 16 = 0 <-> padded = data)%nat
  /\ chacha20poly1305.padTo16Bytes padded = padded.
Proof.
  cbv zeta. pose proof (padTo16Bytes_spec data) as Hspec.
  assert (Hlen : length (chacha20poly1305.padTo16Bytes data)
                 = (length data + (16 - length data mod 16) mod 16)%nat).
  { rewrite Hspec. unfold Spec.zero_pad.
    now rewrite length_app, repeat_length. }
  split.
  { rewrite Hlen. rewrite Hspec at 1. unfold Spec.zero_pad.
    do 2 f_equal. lia. }
  split; [rewrite Hlen; unfold ceilDiv; lia|].
  split; [rewrite Hlen; lia|].
  split.
  - split.
    + intros H. unfold chacha20poly1305.padTo16Bytes.
      now rewrite H.
    + intros H. rewrite H in Hlen. lia.
  - unfold chacha20poly1305.padTo16Bytes at 1.
    replace (length (chacha20poly1305.padTo16Bytes data) mod 16 =? 0)%nat
      with true; [reflexivity|].
    symmetry. apply Nat.eqb_eq. rewrite Hlen. lia.
Qed.

(** X6 -- the framed input for inputs shorter than 2^32 bytes is
    aad, zero padding to a multiple of 16, ciphertext, zero padding to a
    multiple of 16, and the two lengths as 8-byte little-endian integers;
    its length is the two padded lengths plus 16. *)
Theorem generatePoly1305Input_layout (aad ciphertext : list Z) :
  Z.of_nat (length aad) < 2 ^ 32 ->
  Z.of_nat (length ciphertext) < 2 ^ 32 ->
  chacha20poly1305.generatePoly1305Input aad ciphertext
  = aad ++ Spec.zero_pad aad ++ ciphertext ++ Spec.zero_pad ciphertext
      ++ Spec.le_bytes 8 (Z.of_nat (length aad))
      ++ Spec.le_bytes 8 (Z.of_nat (length ciphertext))
  /\ length (chacha20poly1305.generatePoly1305Input aad ciphertext)
     = (16 * (ceilDiv (length aad) 16 + ceilDiv (length ciphertext) 16 + 1))%nat.
Proof.
  intros Ha Hc. split.
  - now apply generatePoly1305Input_small.
  - rewrite generatePoly1305Input_spec.
    rewrite !length_app, !le_bytes_length. unfold Spec.zero_pad.
    rewrite !repeat_length. unfold ceilDiv. lia.
Qed.

Lemma generatePoly1305Input_layout_witness :
  Z.of_nat (length aead_aad) < 2 ^ 32
  /\ Z.of_nat (length [1; 2; 3]) < 2 ^ 32
  /\ length (chacha20poly1305.generatePoly1305Input aead_aad [1; 2; 3])
     = (16 * (ceilDiv (length aead_aad) 16 + ceilDiv (length [1; 2; 3]) 16
              + 1))%nat.
Proof.
  assert (Ha : Z.of_nat (length aead_aad) < 2 ^ 32) by reflexivity.
  assert (Hc : Z.of_nat (length [1; 2; 3]) < 2 ^ 32) by reflexivity.
  split; [exact Ha|]. split; [exact Hc|].
  exact (proj2 (generatePoly1305Input_layout aead_aad [1; 2; 3] Ha Hc)).
Defined.

(** X7 -- the earlier [poly1305KeyGen(key, nonce)] returns the first 32
    bytes of the serialized block of counter 0, which is also the key the
    later [poly1305KeyGen(chacha20)] derives from a cipher instance freshly
    built at counter 0. *)
Theorem poly1305KeyGen_key_nonce_spec (key nonce : list Z) :
  length key = 32%nat -> bytes_ok key ->
  length nonce = 12%nat -> bytes_ok nonce ->
  poly1305KeyGen_key_nonce key nonce
  = firstn 32 (Spec.word_bytes (Spec.block key nonce 0))
  /\ poly1305KeyGen_key_nonce key nonce
     = fst (chacha20poly1305.poly1305KeyGen
              (chacha20.NewChaCha20 key nonce [0; 0; 0; 0]))
  /\ length (poly1305KeyGen_key_nonce key nonce) = 32%nat.
Proof.
  intros Hk Hkb Hn Hnb.
  assert (Hc : length [0; 0; 0; 0] = 4%nat) by reflexivity.
  assert (Hcb : bytes_ok [0; 0; 0; 0])
    by (repeat constructor; unfold is_byte; lia).
  pose proof (CreateBlock_fresh key nonce [0; 0; 0; 0] Hk Hkb Hn Hnb Hc Hcb)
    as Hfresh.
  pose proof (block_length key nonce [0; 0; 0; 0] Hk Hkb Hn Hnb Hc Hcb)
    as Hlen.
  rewrite le_int_zero4 in Hlen. rewrite le_int_zero4 in Hfresh.
  unfold poly1305KeyGen_key_nonce, chacha20poly1305.poly1305KeyGen.
  rewrite Hfresh. cbn [fst].
  rewrite polyKey_bytes by exact Hlen.
  split; [reflexivity|]. split; [reflexivity|].
  apply polyKey_ok, Hlen.
Qed.

Lemma poly1305KeyGen_key_nonce_spec_witness :
  length aead_key = 32%nat /\ bytes_ok aead_key
  /\ length aead_nonce = 12%nat /\ bytes_ok aead_nonce
  /\ length (poly1305KeyGen_key_nonce aead_key aead_nonce) = 32%nat.
Proof.
  assert (Hk : length aead_key = 32%nat) by reflexivity.
  assert (Hkb : bytes_ok aead_key)
    by (unfold bytes_ok, is_byte; repeat constructor; vm_compute; discriminate).
  assert (Hn : length aead_nonce = 12%nat) by reflexivity.
  assert (Hnb : bytes_ok aead_nonce)
    by (unfold bytes_ok, is_byte; repeat constructor; vm_compute; discriminate).
  split; [exact Hk|]. split; [exact Hkb|]. split; [exact Hn|].
  split; [exact Hnb|].
  exact (proj2 (proj2 (poly1305KeyGen_key_nonce_spec aead_key aead_nonce
                         Hk Hkb Hn Hnb))).
Defined.

(** ** Poly1305: more on [NewPoly1305] and [GenerateTag] *)

Lemma le_int_bound l :
  bytes_ok l -> 0 <= Spec.le_int l < 256 ^ Z.of_nat (length l).
Proof.
  induction 1 as [|b t Hb _ IH]; cbn [Spec.le_int length]; [lia|].
  rewrite Nat2Z.inj_succ, Z.pow_succ_r by lia.
  unfold is_byte in Hb. lia.
Qed.

Lemma le_bytes_le_int l :
  bytes_ok l -> Spec.le_bytes (length l) (Spec.le_int l) = l.
Proof.
  induction 1 as [|b t Hb _ IH]; cbn [Spec.le_int Spec.le_bytes length];
    [reflexivity|].
  unfold is_byte in Hb.
  replace ((b + 256 * Spec.le_int t) mod 256) with b by lia.
  replace ((b + 256 * Spec.le_int t) / 256) with (Spec.le_int t) by lia.
  now rewrite IH.
Qed.

Lemma accumulate_nil r a : Spec.accumulate r a [] = a.
Proof. reflexivity. Qed.

(** X8 -- the tag of the empty message is the second half of the key: with
    no block to absorb the accumulator stays 0, the tag is [s] itself, and
    the instance is left as it was. *)
Theorem GenerateTag_empty (key : list Z) :
  length key = 32%nat -> bytes_ok key ->
  poly1305.GenerateTag (poly1305.NewPoly1305 key) []
  = (skipn 16 key, poly1305.NewPoly1305 key).
Proof.
  intros Hlen Hok.
  rewrite (surjective_pairing (poly1305.GenerateTag _ _)).
  rewrite GenerateTag_accum.
  rewrite (NewPoly1305_spec key Hlen Hok).
  assert (Hsk : bytes_ok (skipn 16 key)) by now apply skipn_ok.
  assert (Hsl : length (skipn 16 key) = 16%nat)
    by (rewrite length_skipn; lia).
  rewrite GenerateTag_tag;
    cbn [poly1305.accum poly1305.s poly1305.r]; [| lia | now apply le_int_nonneg].
  rewrite accumulate_nil. unfold poly1305.with_accum.
  cbn [poly1305.accum poly1305.s poly1305.r]. f_equal.
  unfold Spec.tag_of, Spec.s_of.
  pose proof (le_int_bound _ Hsk) as Hb. rewrite Hsl in Hb.
  change (256 ^ Z.of_nat 16) with (2 ^ 128) in Hb.
  rewrite Z.add_0_l, Z.mod_small by exact Hb.
  rewrite <- Hsl at 1. now apply le_bytes_le_int.
Qed.

Lemma GenerateTag_empty_witness :
  length poly_key = 32%nat /\ bytes_ok poly_key
  /\ poly1305.GenerateTag (poly1305.NewPoly1305 poly_key) []
     = (skipn 16 poly_key, poly1305.NewPoly1305 poly_key).
Proof.
  assert (Hl : length poly_key = 32%nat) by reflexivity.
  assert (Hb : bytes_ok poly_key)
    by (unfold bytes_ok, is_byte; repeat constructor; vm_compute; discriminate).
  split; [exact Hl|]. split; [exact Hb|].
  exact (GenerateTag_empty poly_key Hl Hb).
Defined.

Lemma chunks_fuel bs : forall f1 f2 l,
  (length l <= f1)%nat -> (length l <= f2)%nat ->
  Spec.chunks f1 (S bs) l = Spec.chunks f2 (S bs) l.
Proof.
  induction f1 as [|f1 IH]; intros f2 l H1 H2.
  - destruct l; [|cbn [length] in H1; lia]. now rewrite !chunks_nil.
  - destruct l as [|b t]; [now rewrite !chunks_nil|].
    destruct f2 as [|f2]; [cbn [length] in H2; lia|].
    cbn [Spec.chunks]. f_equal.
    cbn [length] in H1, H2.
    apply IH; cbn [skipn]; rewrite length_skipn; lia.
Qed.

Lemma blocks_app : forall k d1 d2,
  length d1 = (16 * k)%nat ->
  Spec.blocks 16 (d1 ++ d2) = Spec.blocks 16 d1 ++ Spec.blocks 16 d2.
Proof.
  induction k as [|k IH]; intros d1 d2 Hlen.
  - destruct d1; [reflexivity|cbn [length] in Hlen; lia].
  - unfold Spec.blocks.
    destruct d1 as [|b t] eqn:E; [cbn [length] in Hlen; lia|].
    rewrite <- E in *. clear E b t.
    assert (Hne : exists x y, d1 ++ d2 = x :: y /\ exists x' y', d1 = x' :: y').
    { destruct d1 as [|x y]; [cbn [length] in Hlen; lia|].
      exists x, (y ++ d2). split; [reflexivity|]. now exists x, y. }
    destruct Hne as [x [y [Hxy [x' [y' Hxy']]]]].
    assert (H1 : Spec.chunks (length (d1 ++ d2)) 16 (d1 ++ d2)
                 = firstn 16 (d1 ++ d2)
                   :: Spec.chunks (length (skipn 16 (d1 ++ d2))) 16
                        (skipn 16 (d1 ++ d2))).
    { assert (Hl : (length (d1 ++ d2)
                    = S (Nat.pred (length (d1 ++ d2))))%nat)
        by (rewrite Hxy; cbn [length]; lia).
      rewrite Hl at 1. rewrite Hxy at 2. cbn [Spec.chunks].
      rewrite <- Hxy. f_equal.
      apply chunks_fuel; rewrite ?length_skipn; [|lia].
      rewrite length_app. rewrite length_app in Hl. lia. }
    assert (H2 : Spec.chunks (length d1) 16 d1
                 = firstn 16 d1
                   :: Spec.chunks (length (skipn 16 d1)) 16 (skipn 16 d1)).
    { assert (Hl : (length d1 = S (Nat.pred (length d1)))%nat) by lia.
      rewrite Hl at 1. rewrite Hxy' at 2. cbn [Spec.chunks].
      rewrite <- Hxy'. f_equal.
      apply chunks_fuel; rewrite ?length_skipn; lia. }
    rewrite H1, H2. cbn [app].
    rewrite firstn_app, skipn_app.
    replace (16 - length d1)%nat with 0%nat by lia.
    cbn [firstn skipn]. rewrite app_nil_r. f_equal.
    apply (IH (skipn 16 d1) d2). rewrite length_skipn. lia.
Qed.

Lemma accumulate_app r a d1 d2 :
  (length d1 mod 16 = 0)%nat ->
  Spec.accumulate r a (d1 ++ d2)
  = Spec.accumulate r (Spec.accumulate r a d1) d2.
Proof.
  intros Hlen. unfold Spec.accumulate.
  rewrite (blocks_app (length d1 / 16) d1 d2) by lia.
  apply fold_left_app.
Qed.

(** X9 -- incremental authentication: feeding a message to the same
    instance in two calls, the first part a whole number of 16-byte blocks,
    gives with the second call the tag and the instance that one call on
    the whole message gives. *)
Theorem GenerateTag_incremental (p : poly1305.Poly1305) (d1 d2 : list Z) :
  0 <= poly1305.accum p -> 0 <= poly1305.s p ->
  (length d1 mod 16 = 0)%nat ->
  poly1305.GenerateTag (snd (poly1305.GenerateTag p d1)) d2
  = poly1305.GenerateTag p (d1 ++ d2).
Proof.
  intros Ha Hs Hlen.
  rewrite (surjective_pairing (poly1305.GenerateTag p (d1 ++ d2))).
  rewrite (surjective_pairing (poly1305.GenerateTag (snd _) d2)).
  rewrite !GenerateTag_accum.
  rewrite (GenerateTag_tag p (d1 ++ d2) Ha Hs).
  rewrite GenerateTag_tag;
    cbn [poly1305.with_accum poly1305.accum poly1305.r poly1305.s];
    [| now apply accumulate_nonneg | exact Hs].
  unfold poly1305.with_accum.
  cbn [poly1305.accum poly1305.r poly1305.s].
  now rewrite (accumulate_app _ _ d1 d2 Hlen).
Qed.

Lemma GenerateTag_incremental_witness :
  0 <= poly1305.accum (poly1305.NewPoly1305 poly_key)
  /\ 0 <= poly1305.s (poly1305.NewPoly1305 poly_key)
  /\ (length (firstn 16 poly_msg) mod 16 = 0)%nat
  /\ poly1305.GenerateTag
       (snd (poly1305.GenerateTag (poly1305.NewPoly1305 poly_key)
               (firstn 16 poly_msg))) (skipn 16 poly_msg)
     = poly1305.GenerateTag (poly1305.NewPoly1305 poly_key)
         (firstn 16 poly_msg ++ skipn 16 poly_msg).
Proof.
  assert (Ha : 0 <= poly1305.accum (poly1305.NewPoly1305 poly_key))
    by (vm_compute; discriminate).
  assert (Hs : 0 <= poly1305.s (poly1305.NewPoly1305 poly_key))
    by (vm_compute; discriminate).
  assert (Hl : (length (firstn 16 poly_msg) mod 16 = 0)%nat) by reflexivity.
  split; [exact Ha|]. split; [exact Hs|]. split; [exact Hl|].
  exact (GenerateTag_incremental (poly1305.NewPoly1305 poly_key)
           (firstn 16 poly_msg) (skipn 16 poly_msg) Ha Hs Hl).
Defined.

Lemma accumulate_range r a msg :
  0 <= a < Spec.prime -> 0 <= Spec.accumulate r a msg < Spec.prime.
Proof.
  unfold Spec.accumulate. generalize (Spec.blocks 16 msg) as l.
  intros l. revert a. induction l as [|blk l IH]; intros a Ha;
    cbn [fold_left]; [exact Ha|].
  apply IH. apply Z.mod_pos_bound. reflexivity.
Qed.

(** X10 -- [GenerateTag] keeps the accumulator reduced: started from an
    accumulator in [0, P) (as [NewPoly1305] sets it) the stored accumulator
    is again in [0, P), whatever the data, and the tag is 16 bytes, each in
    0..255. *)
Theorem GenerateTag_ranges (p : poly1305.Poly1305) (data : list Z) :
  0 <= poly1305.accum p < poly1305.P -> 0 <= poly1305.s p ->
  0 <= poly1305.accum (snd (poly1305.GenerateTag p data)) < poly1305.P
  /\ length (fst (poly1305.GenerateTag p data)) = 16%nat
  /\ bytes_ok (fst (poly1305.GenerateTag p data)).
Proof.
  intros Ha Hs. rewrite P_prime in *.
  rewrite GenerateTag_accum.
  rewrite GenerateTag_tag by lia.
  cbn [poly1305.with_accum poly1305.accum].
  split; [now apply accumulate_range|].
  split; [apply le_bytes_length | apply le_bytes_ok].
Qed.

Lemma GenerateTag_ranges_witness :
  0 <= poly1305.accum (poly1305.NewPoly1305 poly_key) < poly1305.P
  /\ 0 <= poly1305.s (poly1305.NewPoly1305 poly_key)
  /\ bytes_ok (fst (poly1305.GenerateTag (poly1305.NewPoly1305 poly_key)
                      poly_msg)).
Proof.
  assert (Ha : 0 <= poly1305.accum (poly1305.NewPoly1305 poly_key)
               < poly1305.P)
    by (split; [vm_compute; discriminate | reflexivity]).
  assert (Hs : 0 <= poly1305.s (poly1305.NewPoly1305 poly_key))
    by (vm_compute; discriminate).
  split; [exact Ha|]. split; [exact Hs|].
  exact (proj2 (proj2 (GenerateTag_ranges (poly1305.NewPoly1305 poly_key)
                         poly_msg Ha Hs))).
Defined.

Lemma byte_high_bit b i : is_byte b -> 8 <= i -> Z.testbit b i = false.
Proof.
  intros Hb Hi. rewrite <- (Z.mod_small b (2 ^ 8)) by exact Hb.
  apply Z.mod_pow2_bits_high. lia.
Qed.

Lemma land_byte b m : is_byte b -> is_byte m -> is_byte (Z.land b m).
Proof.
  intros Hb Hm.
  assert (H : Z.land b m = Z.land b m mod 2 ^ 8).
  { apply Z.bits_inj'. intros i Hi.
    rewrite Z.testbit_mod_pow2 by lia.
    destruct (i <? 8) eqn:E; [reflexivity|]. apply Z.ltb_ge in E.
    rewrite Z.land_spec, (byte_high_bit b i Hb E). reflexivity. }
  unfold is_byte. rewrite H. apply Z.mod_pos_bound. reflexivity.
Qed.

Lemma byte_cons_lor b x : is_byte b -> b + 256 * x = Z.lor b (Z.shiftl x 8).
Proof.
  intros Hb. rewrite Z.shiftl_mul_pow2 by lia.
  rewrite lor_low_mul; [change (2 ^ 8) with 256; lia | lia | exact Hb].
Qed.

Lemma land_cons b m x y :
  is_byte b -> is_byte m ->
  Z.land (b + 256 * x) (m + 256 * y) = Z.land b m + 256 * Z.land x y.
Proof.
  intros Hb Hm.
  rewrite (byte_cons_lor b x Hb), (byte_cons_lor m y Hm).
  rewrite (byte_cons_lor _ (Z.land x y) (land_byte b m Hb Hm)).
  apply Z.bits_inj'. intros i Hi.
  rewrite Z.land_spec, !Z.lor_spec, Z.land_spec.
  destruct (Z.lt_ge_cases i 8) as [Hlt|Hge].
  - rewrite !Z.shiftl_spec_low by exact Hlt. now rewrite !orb_false_r.
  - rewrite (byte_high_bit b i Hb Hge), (byte_high_bit m i Hm Hge).
    rewrite !Z.shiftl_spec by exact Hi. now rewrite Z.land_spec.
Qed.

Lemma le_int_land : forall l ms,
  length l = length ms -> bytes_ok l -> bytes_ok ms ->
  Spec.le_int (Spec.zip_with Z.land l ms)
  = Z.land (Spec.le_int l) (Spec.le_int ms).
Proof.
  unfold Spec.zip_with.
  induction l as [|b l IH]; intros [|m ms] Hlen Hl Hm;
    try discriminate Hlen; [reflexivity|].
  inversion_clear Hl as [|? ? Hb Hl']. inversion_clear Hm as [|? ? Hm0 Hm'].
  cbn [combine map fst snd Spec.le_int].
  rewrite (land_cons b m _ _ Hb Hm0).
  rewrite IH; [reflexivity | | assumption | assumption].
  cbn [length] in Hlen. lia.
Qed.

Lemma land_255 b : is_byte b -> Z.land b 255 = b.
Proof.
  intros Hb. apply Z.eqb_eq.
  revert b Hb. apply byte_cases. vm_compute. reflexivity.
Qed.

Lemma clamp_mask_bytes_ok : bytes_ok clamp_mask_bytes.
Proof. unfold clamp_mask_bytes, is_byte. repeat constructor; lia. Qed.

Lemma clamp_from_mask l :
  length l = 16%nat -> bytes_ok l ->
  Spec.clamp_from 0 l = Spec.zip_with Z.land l clamp_mask_bytes.
Proof.
  intros Hlen Hok.
  do 16 (destruct l as [|? l]; [discriminate Hlen|]).
  destruct l; [|discriminate Hlen].
  repeat match goal with
         | H : bytes_ok (_ :: _) |- _ => inversion_clear H
         | H : Forall _ (_ :: _) |- _ => inversion_clear H
         end.
  unfold Spec.zip_with, clamp_mask_bytes.
  cbn [Spec.clamp_from existsb Nat.eqb orb combine map fst snd].
  rewrite <- !land_15, <- !land_252 by assumption.
  rewrite !land_255 by assumption. reflexivity.
Qed.

(** X11 -- the clamp as RFC 8439 writes it: [NewPoly1305] stores as [r]
    the first 16 key bytes, read little-endian, ANDed with
    0x0ffffffc0ffffffc0ffffffc0fffffff, so 0 <= r < 2^124; [s] is the last
    16 key bytes read little-endian, below 2^128; the accumulator starts
    at 0. *)
Theorem NewPoly1305_clamp_mask (key : list Z) :
  length key = 32%nat -> bytes_ok key ->
  let p := poly1305.NewPoly1305 key in
  poly1305.r p = Z.land (Spec.le_int (firstn 16 key)) clamp_mask
  /\ 0 <= poly1305.r p < 2 ^ 124
  /\ poly1305.s p = Spec.le_int (skipn 16 key)
  /\ 0 <= poly1305.s p < 2 ^ 128
  /\ poly1305.accum p = 0.
Proof.
  intros Hlen Hok. cbv zeta.
  rewrite (NewPoly1305_spec key Hlen Hok).
  cbn [poly1305.r poly1305.s poly1305.accum].
  assert (Hf : bytes_ok (firstn 16 key)) by now apply firstn_ok.
  assert (Hfl : length (firstn 16 key) = 16%nat)
    by (rewrite length_firstn; lia).
  assert (Hs : bytes_ok (skipn 16 key)) by now apply skipn_ok.
  assert (Hsl : length (skipn 16 key) = 16%nat)
    by (rewrite length_skipn; lia).
  assert (Hr : Spec.r_of key
               = Z.land (Spec.le_int (firstn 16 key)) clamp_mask).
  { unfold Spec.r_of. rewrite (clamp_from_mask _ Hfl Hf).
    rewrite le_int_land; [reflexivity | exact Hfl | exact Hf |].
    apply clamp_mask_bytes_ok. }
  split; [exact Hr|]. split.
  - rewrite Hr. pose proof (le_int_nonneg _ Hf) as H0.
    assert (Hnn : 0 <= Z.land (Spec.le_int (firstn 16 key)) clamp_mask)
      by (apply Z.land_nonneg; now left).
    split; [exact Hnn|].
    destruct (Z.eq_dec (Z.land (Spec.le_int (firstn 16 key)) clamp_mask) 0)
      as [->|Hne]; [reflexivity|].
    apply Z.log2_lt_pow2; [lia|].
    pose proof (Z.log2_land (Spec.le_int (firstn 16 key)) clamp_mask H0
                  ltac:(discriminate)) as Hlog.
    assert (Hm : Z.log2 clamp_mask = 123) by reflexivity.
    lia.
  - split; [reflexivity|]. split; [|reflexivity].
    unfold Spec.s_of. pose proof (le_int_bound _ Hs) as Hb.
    rewrite Hsl in Hb. exact Hb.
Qed.

Lemma NewPoly1305_clamp_mask_witness :
  length poly_key = 32%nat /\ bytes_ok poly_key
  /\ poly1305.r (poly1305.NewPoly1305 poly_key)
     = Z.land (Spec.le_int (firstn 16 poly_key)) clamp_mask.
Proof.
  assert (Hl : length poly_key = 32%nat) by reflexivity.
  assert (Hb : bytes_ok poly_key)
    by (unfold bytes_ok, is_byte; repeat constructor; vm_compute; discriminate).
  split; [exact Hl|]. split; [exact Hb|].
  exact (proj1 (NewPoly1305_clamp_mask poly_key Hl Hb)).
Defined.

(** ** Reusing an AEAD instance *)

Lemma Encrypt_from key nonce ctr st acc r s k0 n0 plaintext aad :
  length key = 32%nat -> bytes_ok key ->
  length nonce = 12%nat -> bytes_ok nonce ->
  is_word ctr -> 0 <= acc -> 0 <= s ->
  let n := ceilDiv (length plaintext) 64 in
  let ct := Spec.zip_with Z.lxor plaintext (keystream key nonce ctr n) in
  let acc' :=
    Spec.accumulate r acc (chacha20poly1305.generatePoly1305Input aad ct) in
  exists st',
    chacha20poly1305.Encrypt
      (chacha20poly1305.mkChaCha20Poly1305 k0 n0
         (chacha20.mkChaCha20 ctr (Spec.words key) (Spec.words nonce) st)
         (poly1305.mkPoly1305 acc r s)) plaintext aad
    = (ct, Spec.tag_of acc' s,
       chacha20poly1305.mkChaCha20Poly1305 k0 n0
         (chacha20.mkChaCha20 ((ctr + Z.of_nat n) mod 2 ^ 32)
            (Spec.words key) (Spec.words nonce) st')
         (poly1305.mkPoly1305 acc' r s)).
Proof.
  intros Hk Hkb Hn Hnb Hc Ha Hs. cbv zeta.
  unfold chacha20poly1305.Encrypt.
  cbn [chacha20poly1305.chacha20 chacha20poly1305.poly1305
       chacha20poly1305.key chacha20poly1305.nonce].
  rewrite XORWithKeyStream_spec.
  rewrite (createBlocks_keystream _ key nonce ctr st Hk Hkb Hn Hnb Hc).
  set (n := ceilDiv (length plaintext) 64).
  set (ct := Spec.zip_with Z.lxor plaintext (keystream key nonce ctr n)).
  pose proof (createBlocks_fields n
                (chacha20.mkChaCha20 ctr (Spec.words key) (Spec.words nonce)
                   st)) as [Hkey Hnonce].
  pose proof (createBlocks_counter n
                (chacha20.mkChaCha20 ctr (Spec.words key) (Spec.words nonce)
                   st) Hc) as Hctr.
  destruct (snd (createBlocks n _)) as [ctr' key' nonce' st'].
  cbn [chacha20.key chacha20.nonce chacha20.counter] in Hkey, Hnonce, Hctr.
  subst ctr' key' nonce'. exists st'.
  set (input := chacha20poly1305.generatePoly1305Input aad ct).
  pose proof (GenerateTag_accum (poly1305.mkPoly1305 acc r s) input) as Hacc.
  pose proof (GenerateTag_tag (poly1305.mkPoly1305 acc r s) input Ha Hs)
    as Htag.
  destruct (poly1305.GenerateTag (poly1305.mkPoly1305 acc r s) input)
    as [tag poly].
  cbn [fst snd poly1305.accum poly1305.r poly1305.s] in Hacc, Htag.
  subst tag poly. reflexivity.
Qed.

(** X12 -- an AEAD instance is single-use: a second [Encrypt] on the same
    instance does not start over.  Its keystream continues at the block
    counter the first call reached, and its tag is computed from the
    Poly1305 accumulator the first call left behind. *)
Theorem Encrypt_second_message (key nonce p1 a1 p2 a2 : list Z) :
  length key = 32%nat -> bytes_ok key ->
  length nonce = 12%nat -> bytes_ok nonce ->
  let polyKey := firstn 32 (Spec.word_bytes (Spec.block key nonce 0)) in
  let n1 := ceilDiv (length p1) 64 in
  let c1 := Spec.zip_with Z.lxor p1 (keystream key nonce 1 n1) in
  let c2 :=
    Spec.zip_with Z.lxor p2
      (keystream key nonce ((1 + Z.of_nat n1) mod 2 ^ 32)
         (ceilDiv (length p2) 64)) in
  let acc1 :=
    Spec.accumulate (Spec.r_of polyKey) 0
      (chacha20poly1305.generatePoly1305Input a1 c1) in
  fst (chacha20poly1305.Encrypt
         (snd (chacha20poly1305.Encrypt
                 (chacha20poly1305.NewChaCha20Poly1305 key nonce) p1 a1))
         p2 a2)
  = (c2,
     Spec.tag_of
       (Spec.accumulate (Spec.r_of polyKey) acc1
          (chacha20poly1305.generatePoly1305Input a2 c2))
       (Spec.s_of polyKey)).
Proof.
  intros Hk Hkb Hn Hnb. cbv zeta.
  destruct (NewChaCha20Poly1305_fresh key nonce Hk Hkb Hn Hnb) as [-> Hlen].
  revert Hlen. generalize (Spec.block key nonce 0) as st0. intros st0 Hlen.
  destruct (polyKey_ok _ Hlen) as [Hpl Hpb].
  rewrite (NewPoly1305_spec _ Hpl Hpb).
  set (polyKey := firstn 32 (Spec.word_bytes st0)) in *.
  assert (H1 : is_word 1) by (unfold is_word; lia).
  assert (Hs : 0 <= Spec.s_of polyKey)
    by (apply le_int_nonneg, skipn_ok, Hpb).
  destruct (Encrypt_from key nonce 1 st0 0 (Spec.r_of polyKey)
              (Spec.s_of polyKey) key nonce p1 a1 Hk Hkb Hn Hnb H1
              (Z.le_refl 0) Hs) as [st1 ->].
  cbn [snd].
  set (n1 := ceilDiv (length p1) 64).
  set (acc1 := Spec.accumulate _ 0 _).
  assert (Hc : is_word ((1 + Z.of_nat n1) mod 2 ^ 32))
    by (unfold is_word; apply Z.mod_pos_bound; lia).
  assert (Ha : 0 <= acc1) by (apply accumulate_nonneg; lia).
  destruct (Encrypt_from key nonce ((1 + Z.of_nat n1) mod 2 ^ 32) st1 acc1
              (Spec.r_of polyKey) (Spec.s_of polyKey) key nonce p2 a2
              Hk Hkb Hn Hnb Hc Ha Hs) as [st2 ->].
  reflexivity.
Qed.


Lemma Encrypt_second_message_witness :
  length aead_key = 32%nat /\ bytes_ok aead_key
  /\ length aead_nonce = 12%nat /\ bytes_ok aead_nonce
  /\ (let polyKey :=
        firstn 32 (Spec.word_bytes (Spec.block aead_key aead_nonce 0)) in
      let n1 := ceilDiv (length [1; 2; 3]) 64 in
      let c1 :=
        Spec.zip_with Z.lxor [1; 2; 3] (keystream aead_key aead_nonce 1 n1) in
      let c2 :=
        Spec.zip_with Z.lxor [4; 5]
          (keystream aead_key aead_nonce ((1 + Z.of_nat n1) mod 2 ^ 32)
             (ceilDiv (length [4; 5]) 64)) in
      let acc1 :=
        Spec.accumulate (Spec.r_of polyKey) 0
          (chacha20poly1305.generatePoly1305Input aead_aad c1) in
      fst (chacha20poly1305.Encrypt
             (snd (chacha20poly1305.Encrypt
                     (chacha20poly1305.NewChaCha20Poly1305 aead_key
                        aead_nonce) [1; 2; 3] aead_aad))
             [4; 5] aead_aad)
      = (c2,
         Spec.tag_of
           (Spec.accumulate (Spec.r_of polyKey) acc1
              (chacha20poly1305.generatePoly1305Input aead_aad c2))
           (Spec.s_of polyKey))).
Proof.
  assert (Hk : length aead_key = 32%nat) by reflexivity.
  assert (Hkb : bytes_ok aead_key)
    by (unfold bytes_ok, is_byte; repeat constructor; vm_compute; discriminate).
  assert (Hn : length aead_nonce = 12%nat) by reflexivity.
  assert (Hnb : bytes_ok aead_nonce)
    by (unfold bytes_ok, is_byte; repeat constructor; vm_compute; discriminate).
  split; [exact Hk|]. split; [exact Hkb|]. split; [exact Hn|].
  split; [exact Hnb|].
  exact (Encrypt_second_message aead_key aead_nonce [1; 2; 3] aead_aad
           [4; 5] aead_aad Hk Hkb Hn Hnb).
Defined.

(** ** The framing is unambiguous *)

Lemma le_int_le_bytes k : forall n,
  Spec.le_int (Spec.le_bytes k n) = n mod 256 ^ Z.of_nat k.
Proof.
  induction k as [|k IH]; intros n.
  - cbn [Spec.le_bytes Spec.le_int]. change (256 ^ Z.of_nat 0) with 1.
    now rewrite Z.mod_1_r.
  - cbn [Spec.le_bytes Spec.le_int]. rewrite IH.
    rewrite Nat2Z.inj_succ, Z.pow_succ_r by lia.
    assert (0 < 256 ^ Z.of_nat k) by (apply Z.pow_pos_nonneg; lia).
    rewrite Z.rem_mul_r by lia. reflexivity.
Qed.

Lemma app_inj_length (A : Type) : forall a1 a2 b1 b2 : list A,
  length a1 = length a2 -> a1 ++ b1 = a2 ++ b2 -> a1 = a2 /\ b1 = b2.
Proof.
  induction a1 as [|x a1 IH]; intros [|y a2] b1 b2 Hlen H;
    try discriminate Hlen.
  - now split.
  - cbn [app] in H. injection H as -> H. cbn [length] in Hlen.
    destruct (IH a2 b1 b2 ltac:(lia) H) as [-> ->]. now split.
Qed.

Lemma app_inj_length_r (A : Type) (a1 a2 b1 b2 : list A) :
  length b1 = length b2 -> a1 ++ b1 = a2 ++ b2 -> a1 = a2 /\ b1 = b2.
Proof.
  intros Hlen H. apply app_inj_length; [|exact H].
  apply (f_equal (@length A)) in H. rewrite !length_app in H. lia.
Qed.

Lemma le_bytes8_inj n m :
  0 <= n < 2 ^ 32 -> 0 <= m < 2 ^ 32 ->
  Spec.le_bytes 8 n = Spec.le_bytes 8 m -> n = m.
Proof.
  intros Hn Hm H. apply (f_equal Spec.le_int) in H.
  rewrite !le_int_le_bytes in H.
  change (256 ^ Z.of_nat 8) with (2 ^ 64) in H.
  rewrite !Z.mod_small in H by lia. exact H.
Qed.

(** X13 -- for inputs shorter than 2^32 bytes the framing is injective:
    two (aad, ciphertext) pairs with the same framed input are the same
    pair, so the tag binds where the associated data ends and the
    ciphertext begins. *)
Theorem generatePoly1305Input_injective (aad1 ct1 aad2 ct2 : list Z) :
  Z.of_nat (length aad1) < 2 ^ 32 -> Z.of_nat (length ct1) < 2 ^ 32 ->
  Z.of_nat (length aad2) < 2 ^ 32 -> Z.of_nat (length ct2) < 2 ^ 32 ->
  chacha20poly1305.generatePoly1305Input aad1 ct1
  = chacha20poly1305.generatePoly1305Input aad2 ct2 ->
  aad1 = aad2 /\ ct1 = ct2.
Proof.
  intros Ha1 Hc1 Ha2 Hc2 H.
  rewrite !generatePoly1305Input_small in H by assumption.
  unfold Spec.auth_input in H.
  rewrite !(app_assoc aad1), !(app_assoc (aad1 ++ _)),
          !(app_assoc ((aad1 ++ _) ++ _)) in H.
  rewrite !(app_assoc aad2), !(app_assoc (aad2 ++ _)),
          !(app_assoc ((aad2 ++ _) ++ _)) in H.
  apply app_inj_length_r in H;
    [|now rewrite !length_app, !le_bytes_length].
  destruct H as [Hbody Hlens].
  apply app_inj_length in Hlens; [|now rewrite !le_bytes_length].
  destruct Hlens as [Hla Hlc].
  apply le_bytes8_inj in Hla; [|lia|lia].
  apply le_bytes8_inj in Hlc; [|lia|lia].
  apply Nat2Z.inj in Hla. apply Nat2Z.inj in Hlc.
  rewrite <- !app_assoc in Hbody.
  apply app_inj_length in Hbody; [|exact Hla].
  destruct Hbody as [-> Hbody]. split; [reflexivity|].
  apply app_inj_length in Hbody;
    [|unfold Spec.zero_pad; now rewrite !repeat_length].
  destruct Hbody as [_ Hbody].
  apply app_inj_length in Hbody; [|exact Hlc].
  apply Hbody.
Qed.

Lemma generatePoly1305Input_injective_witness :
  aead_aad = aead_aad /\ [1; 2; 3] = [1; 2; 3].
Proof.
  apply (generatePoly1305Input_injective aead_aad [1; 2; 3]
           aead_aad [1; 2; 3]);
    reflexivity.
Defined.

(** ** [Mul], [Div] and [add] *)

Lemma int_range x : is_int (mathutil.int x).
Proof.
  unfold is_int, mathutil.int.
  pose proof (Z.mod_pos_bound (x + 2 ^ 63) (2 ^ 64) ltac:(reflexivity)).
  lia.
Qed.

Lemma int_small x : is_int x -> mathutil.int x = x.
Proof.
  unfold is_int, mathutil.int. intros H.
  rewrite Z.mod_small by lia. lia.
Qed.

Lemma int_add_l x b : mathutil.int (mathutil.int x + b) = mathutil.int (x + b).
Proof.
  unfold mathutil.int. f_equal.
  replace (x + 2 ^ 63) with (x + 2 ^ 63 + 0) by lia.
  rewrite <- (Z.add_mod_idemp_l (_ - _ + b)) by lia.
  rewrite <- (Z.add_mod_idemp_l (x + b)) by lia.
  f_equal. f_equal.
  rewrite Z.add_0_r.
  replace ((x + 2 ^ 63) mod 2 ^ 64 - 2 ^ 63 + b)
    with ((x + 2 ^ 63) mod 2 ^ 64 + (b - 2 ^ 63)) by lia.
  rewrite Z.add_mod_idemp_l by lia.
  f_equal. lia.
Qed.

Lemma Mul_iter n b :
  Nat.iter n (fun result => mathutil.add result b) 0
  = mathutil.int (Z.of_nat n * b).
Proof.
  induction n as [|n IH].
  - reflexivity.
  - rewrite Nat.iter_succ, IH. unfold mathutil.add.
    rewrite int_add_l. f_equal. lia.
Qed.

(** X14 -- [Mul] adds [b] to 0 [a] times: for [a >= 0] the result is the
    product a * b wrapped to the range of [int] (the product itself when it
    fits); for a negative [a] the loop body never runs and the result is 0,
    whatever [b] is. *)
Theorem Mul_spec (a b : Z) :
  is_int a -> is_int b ->
  is_int (mathutil.Mul a b)
  /\ (0 <= a -> mathutil.Mul a b = mathutil.int (a * b))
  /\ (0 <= a -> is_int (a * b) -> mathutil.Mul a b = a * b)
  /\ (a < 0 -> mathutil.Mul a b = 0).
Proof.
  intros Ha Hb. unfold mathutil.Mul. cbv zeta. rewrite Mul_iter.
  split; [apply int_range|].
  split; [intros H0; now rewrite Z2Nat.id by exact H0|].
  split.
  - intros H0 Hfit. rewrite Z2Nat.id by exact H0. now apply int_small.
  - intros Hneg. destruct a as [|a'|a']; try lia. reflexivity.
Qed.

Lemma Mul_spec_witness :
  is_int (-2) /\ is_int 3 /\ mathutil.Mul (-2) 3 = 0.
Proof.
  assert (Ha : is_int (-2)) by (unfold is_int; lia).
  assert (Hb : is_int 3) by (unfold is_int; lia).
  split; [exact Ha|]. split; [exact Hb|].
  apply (proj2 (proj2 (proj2 (Mul_spec (-2) 3 Ha Hb)))). lia.
Defined.

(** X15 -- [Div] reports [ErrDivisionByZero], with result 0, exactly when
    [b] is 0; otherwise there is no error and the quotient is truncated
    toward zero: [a = b * q + r] with [|r| < |b|] and [r] of the sign of
    [a].  So for operands of opposite signs that do not divide evenly the
    result is one more than the rounded-down quotient. *)
Theorem Div_spec (a b : Z) :
  is_int a -> is_int b ->
  let q := fst (mathutil.Div a b) in
  let err := snd (mathutil.Div a b) in
  (err = Some mathutil.ErrDivisionByZero <-> b = 0)
  /\ (b = 0 -> q = 0)
  /\ (b <> 0 -> (a, b) <> (- 2 ^ 63, -1) ->
      err = None
      /\ Z.abs (a - b * q) < Z.abs b
      /\ 0 <= a * (a - b * q)
      /\ (a mod b <> 0 -> a * b < 0 -> q = a / b + 1)
      /\ (a mod b = 0 \/ 0 < a * b \/ a = 0 -> q = a / b))
  /\ (a = - 2 ^ 63 -> b = -1 -> q = - 2 ^ 63 /\ err = None).
Proof.
  intros Ha Hb. cbv zeta. unfold mathutil.Div.
  destruct (b =? 0) eqn:E; cbn [fst snd].
  - apply Z.eqb_eq in E. subst b.
    split; [split; auto|]. split; [auto|].
    split; [intros H; now contradiction H|]. intros _ H; discriminate H.
  - apply Z.eqb_neq in E.
    split; [split; [discriminate|intros H; now contradiction E]|].
    split; [intros H; now contradiction E|].
    split; [|intros -> ->; split; reflexivity].
    intros _ Hmin.
    pose proof (Z.quot_rem a b E) as Hqr.
    pose proof (Z.rem_bound_abs a b E) as Hr1.
    pose proof (Z.rem_sign_mul a b E) as Hr2.
    pose proof (Z.rem_nonneg a b E) as Hr3.
    pose proof (Z.rem_nonpos a b E) as Hr4.
    assert (Hr0 : Z.rem a b = 0 <-> a mod b = 0)
      by (apply Z.rem_mod_eq_0; exact E).
    assert (Hq : is_int (Z.quot a b)).
    { unfold is_int in *.
      assert (Hne : ~ (a = - 2 ^ 63 /\ b = -1)) by (intros [-> ->]; auto).
      assert (Hmul : Z.abs (Z.quot a b) * Z.abs b <= Z.abs a).
      { rewrite <- Z.quot_abs by exact E.
        rewrite Z.quot_div_nonneg by lia.
        rewrite Z.mul_comm. apply Z.mul_div_le. lia. }
      destruct (Z.eq_dec b 1) as [->|Hb1]; [rewrite Z.quot_1_r; lia|].
      destruct (Z.eq_dec b (-1)) as [->|Hb2].
      - change (-1) with (- (1)). rewrite Z.quot_opp_r by lia.
        rewrite Z.quot_1_r. lia.
      - assert (H2 : Z.abs (Z.quot a b) * 2
                     <= Z.abs (Z.quot a b) * Z.abs b)
          by (apply Z.mul_le_mono_nonneg_l; lia).
        clear - H2 Hmul Ha. generalize dependent (Z.quot a b).
        intros q H2 Hmul. lia. }
    rewrite (int_small _ Hq).
    replace (a - b * Z.quot a b) with (Z.rem a b) by (clear - Hqr; lia).
    split; [reflexivity|]. split; [exact Hr1|]. split; [clear - Hr2; lia|].
    generalize dependent (Z.rem a b). generalize dependent (Z.quot a b).
    intros q _ r Hqr Hr1 Hr2 Hr3 Hr4 Hr0.
    split.
    + intros Hm Hs.
      apply Z.lt_mul_0 in Hs.
      assert (Hrne : r <> 0) by (intros H0; apply Hm, Hr0, H0).
      assert (Hd : q - 1 = a / b).
      { apply (Z.div_unique a b _ (r + b)).
        - clear - Hs Hrne Hr1 Hr3 Hr4. lia.
        - clear - Hqr. lia. }
      clear - Hd. lia.
    + intros Hm. apply (Z.div_unique a b _ r); [|exact Hqr].
      destruct Hm as [Hm|[Hm|Hm]].
      * apply Hr0 in Hm. clear - Hm E. lia.
      * apply Z.lt_0_mul in Hm. clear - Hm Hr1 Hr3 Hr4. lia.
      * assert (r = 0) by (clear - Hm Hr3 Hr4; lia).
        clear - H E. lia.
Qed.

Lemma Div_spec_witness :
  is_int (-7) /\ is_int 2
  /\ fst (mathutil.Div (-7) 2) = -7 / 2 + 1.
Proof.
  assert (Ha : is_int (-7)) by (unfold is_int; lia).
  assert (Hb : is_int 2) by (unfold is_int; lia).
  split; [exact Ha|]. split; [exact Hb|].
  destruct (Div_spec (-7) 2 Ha Hb) as [_ [_ [H _]]].
  destruct H as [_ [_ [_ [H _]]]].
  - discriminate.
  - intros H; discriminate H.
  - apply H; [discriminate | reflexivity].
Defined.

(** ** The rounds are invertible *)

Lemma rotl_inv_16 x : is_word x -> Spec.rotl (Spec.rotl x 16) 16 = x.
Proof.
  unfold is_word, Spec.rotl. change (32 - 16) with 16.
  change (2 ^ 16) with 65536. change (2 ^ 32) with 4294967296. lia.
Qed.

Lemma rotl_inv_12 x : is_word x -> Spec.rotl (Spec.rotl x 12) 20 = x.
Proof.
  unfold is_word, Spec.rotl. change (32 - 12) with 20.
  change (32 - 20) with 12.
  change (2 ^ 12) with 4096. change (2 ^ 20) with 1048576.
  change (2 ^ 32) with 4294967296. lia.
Qed.

Lemma rotl_inv_8 x : is_word x -> Spec.rotl (Spec.rotl x 8) 24 = x.
Proof.
  unfold is_word, Spec.rotl. change (32 - 8) with 24.
  change (32 - 24) with 8.
  change (2 ^ 8) with 256. change (2 ^ 24) with 16777216.
  change (2 ^ 32) with 4294967296. lia.
Qed.

Lemma rotl_inv_7 x : is_word x -> Spec.rotl (Spec.rotl x 7) 25 = x.
Proof.
  unfold is_word, Spec.rotl. change (32 - 7) with 25.
  change (32 - 25) with 7.
  change (2 ^ 7) with 128. change (2 ^ 25) with 33554432.
  change (2 ^ 32) with 4294967296. lia.
Qed.

Lemma RotateLeft32_inv x k k' :
  is_word x ->
  (k, k') = (16, 16) \/ (k, k') = (12, 20) \/ (k, k') = (8, 24)
  \/ (k, k') = (7, 25) ->
  RotateLeft32 (RotateLeft32 x k) k' = x.
Proof.
  intros Hx Hk.
  assert (Hr : 0 < k < 32 /\ 0 < k' < 32)
    by (destruct Hk as [H|[H|[H|H]]]; injection H as -> ->; lia).
  rewrite (RotateLeft32_spec x k) by tauto.
  rewrite RotateLeft32_spec by (try apply rotl_word; tauto).
  destruct Hk as [H|[H|[H|H]]]; injection H as -> ->.
  - now apply rotl_inv_16.
  - now apply rotl_inv_12.
  - now apply rotl_inv_8.
  - now apply rotl_inv_7.
Qed.

Lemma lxor_cancel x y : Z.lxor (Z.lxor x y) y = x.
Proof. now rewrite Z.lxor_assoc, Z.lxor_nilpotent, Z.lxor_0_r. Qed.

Lemma uint32_add_sub x y : is_word x -> uint32 (uint32 (x + y) - y) = x.
Proof. unfold is_word, uint32. change (2 ^ 32) with 4294967296. lia. Qed.

Lemma quarterRound_inv_l a b c d :
  is_word a -> is_word b -> is_word c -> is_word d ->
  let '(a', b', c', d') := chacha20.quarterRound a b c d in
  quarterRound_inv a' b' c' d' = (a, b, c, d).
Proof.
  intros Ha Hb Hc Hd. unfold chacha20.quarterRound. cbv zeta.
  set (a1 := uint32 (a + b)).
  set (d1 := RotateLeft32 (Z.lxor d a1) 16).
  set (c1 := uint32 (c + d1)).
  set (b1 := RotateLeft32 (Z.lxor b c1) 12).
  set (a2 := uint32 (a1 + b1)).
  set (d2 := RotateLeft32 (Z.lxor d1 a2) 8).
  set (c2 := uint32 (c1 + d2)).
  set (b2 := RotateLeft32 (Z.lxor b1 c2) 7).
  assert (Ha1 : is_word a1) by apply uint32_word.
  assert (Hd1 : is_word d1)
    by (apply RotateLeft32_word; [lia | now apply lxor_word]).
  assert (Hc1 : is_word c1) by apply uint32_word.
  assert (Hb1 : is_word b1)
    by (apply RotateLeft32_word; [lia | now apply lxor_word]).
  assert (Ha2 : is_word a2) by apply uint32_word.
  assert (E1 : Z.lxor (RotateLeft32 b2 25) c2 = b1).
  { unfold b2. rewrite RotateLeft32_inv;
      [apply lxor_cancel | apply lxor_word; [exact Hb1 | apply uint32_word]
      | tauto]. }
  assert (E2 : uint32 (c2 - d2) = c1)
    by (unfold c2; now apply uint32_add_sub).
  assert (E3 : Z.lxor (RotateLeft32 d2 24) a2 = d1).
  { unfold d2. rewrite RotateLeft32_inv;
      [apply lxor_cancel | now apply lxor_word | tauto]. }
  assert (E4 : uint32 (a2 - b1) = a1)
    by (unfold a2; now apply uint32_add_sub).
  assert (E5 : Z.lxor (RotateLeft32 b1 20) c1 = b).
  { unfold b1. rewrite RotateLeft32_inv;
      [apply lxor_cancel | now apply lxor_word | tauto]. }
  assert (E6 : uint32 (c1 - d1) = c)
    by (unfold c1; now apply uint32_add_sub).
  assert (E7 : Z.lxor (RotateLeft32 d1 16) a1 = d).
  { unfold d1. rewrite RotateLeft32_inv;
      [apply lxor_cancel | now apply lxor_word | tauto]. }
  assert (E8 : uint32 (a1 - b) = a)
    by (unfold a1; now apply uint32_add_sub).
  clearbody a1 d1 c1 b1 a2 d2 c2 b2.
  unfold quarterRound_inv. cbv zeta.
  rewrite E1, E2, E3, E4, E5, E6, E7, E8. reflexivity.
Qed.

Lemma qrAt_inv_l x y z w st :
  In (x, y, z, w)
     [(0, 4, 8, 12); (1, 5, 9, 13); (2, 6, 10, 14); (3, 7, 11, 15);
      (0, 5, 10, 15); (1, 6, 11, 12); (2, 7, 8, 13); (3, 4, 9, 14)]%nat ->
  length st = 16%nat -> words_ok st ->
  qrAt_inv x y z w (qrAt x y z w st) = st.
Proof.
  intros Hin Hlen Hok.
  do 16 (destruct st as [|? st]; [discriminate Hlen|]).
  destruct st; [|discriminate Hlen].
  repeat match goal with
         | H : words_ok (_ :: _) |- _ => inversion_clear H
         | H : Forall _ (_ :: _) |- _ => inversion_clear H
         end.
  cbn [In] in Hin.
  repeat (destruct Hin as [Hin|Hin];
          [injection Hin as <- <- <- <-;
           unfold qrAt; cbn [get nth];
           match goal with
           | |- context [chacha20.quarterRound ?a ?b ?c ?d] =>
               pose proof (quarterRound_inv_l a b c d
                             ltac:(assumption) ltac:(assumption)
                             ltac:(assumption) ltac:(assumption)) as Hinv;
               destruct (chacha20.quarterRound a b c d) as [[[a' b'] c'] d']
           end;
           cbn [set]; unfold qrAt_inv; cbn [get nth];
           rewrite Hinv; reflexivity|]).
  contradiction Hin.
Qed.

Ltac undo_qrAt x y z w :=
  rewrite (qrAt_inv_l x y z w);
  [ | repeat (first [left; reflexivity | right])
    | rewrite ?qrAt_length; assumption
    | repeat apply qrAt_words; assumption ].

Lemma dround_inv_l st :
  length st = 16%nat -> words_ok st -> dround_inv (dround st) = st.
Proof.
  intros Hlen Hok. unfold dround, dround_inv. cbv zeta.
  undo_qrAt 3%nat 4%nat 9%nat 14%nat.
  undo_qrAt 2%nat 7%nat 8%nat 13%nat.
  undo_qrAt 1%nat 6%nat 11%nat 12%nat.
  undo_qrAt 0%nat 5%nat 10%nat 15%nat.
  undo_qrAt 3%nat 7%nat 11%nat 15%nat.
  undo_qrAt 2%nat 6%nat 10%nat 14%nat.
  undo_qrAt 1%nat 5%nat 9%nat 13%nat.
  undo_qrAt 0%nat 4%nat 8%nat 12%nat.
  reflexivity.
Qed.

Lemma iter_dround_words n st :
  words_ok st -> words_ok (Nat.iter n dround st).
Proof.
  intros H. induction n as [|n IH]; [exact H|].
  rewrite (Nat.iter_succ n _ dround). now apply dround_words.
Qed.

Lemma iter_dround_inv_l n : forall st,
  length st = 16%nat -> words_ok st ->
  Nat.iter n dround_inv (Nat.iter n dround st) = st.
Proof.
  induction n as [|n IH]; intros st Hlen Hok; [reflexivity|].
  rewrite (Nat.iter_succ_r n _ dround_inv).
  rewrite (Nat.iter_succ n _ dround).
  rewrite dround_inv_l;
    [now apply IH | now rewrite iter_dround_length
    | now apply iter_dround_words].
Qed.

(** X16 -- the quarter round loses nothing: on four 32-bit words,
    [quarterRound] followed by its steps undone in reverse order gives the
    four words back, so two inputs with the same output are the same. *)
Theorem quarterRound_invertible (a b c d : Z) :
  is_word a -> is_word b -> is_word c -> is_word d ->
  (let '(a', b', c', d') := chacha20.quarterRound a b c d in
   quarterRound_inv a' b' c' d' = (a, b, c, d))
  /\ (forall a0 b0 c0 d0,
        is_word a0 -> is_word b0 -> is_word c0 -> is_word d0 ->
        chacha20.quarterRound a0 b0 c0 d0 = chacha20.quarterRound a b c d ->
        (a0, b0, c0, d0) = (a, b, c, d)).
Proof.
  intros Ha Hb Hc Hd. split; [now apply quarterRound_inv_l|].
  intros a0 b0 c0 d0 Ha0 Hb0 Hc0 Hd0 Heq.
  pose proof (quarterRound_inv_l a b c d Ha Hb Hc Hd) as H.
  pose proof (quarterRound_inv_l a0 b0 c0 d0 Ha0 Hb0 Hc0 Hd0) as H0.
  rewrite Heq in H0.
  destruct (chacha20.quarterRound a b c d) as [[[a' b'] c'] d'].
  congruence.
Qed.

Lemma quarterRound_invertible_witness :
  is_word 0x11111111 /\ is_word 0x01020304 /\ is_word 0x9b8d6f43
  /\ is_word 0x01234567
  /\ (let '(a', b', c', d') :=
        chacha20.quarterRound 0x11111111 0x01020304 0x9b8d6f43 0x01234567 in
      quarterRound_inv a' b' c' d'
      = (0x11111111, 0x01020304, 0x9b8d6f43, 0x01234567)).
Proof.
  assert (Ha : is_word 0x11111111) by (unfold is_word; lia).
  assert (Hb : is_word 0x01020304) by (unfold is_word; lia).
  assert (Hc : is_word 0x9b8d6f43) by (unfold is_word; lia).
  assert (Hd : is_word 0x01234567) by (unfold is_word; lia).
  split; [exact Ha|]. split; [exact Hb|]. split; [exact Hc|].
  split; [exact Hd|].
  exact (proj1 (quarterRound_invertible _ _ _ _ Ha Hb Hc Hd)).
Defined.

(** X17 -- the rounds of [CreateBlock] are a bijection of the state: on a
    state of 16 words, any number of calls of [doubleRound] is undone by as
    many inverse double rounds, so two states that [doubleRound] sends to
    the same state are the same.  Only the final addition of the initial
    state keeps a block from giving the key away. *)
Theorem doubleRound_invertible (s : chacha20.ChaCha20) (n : nat) :
  length (chacha20.state s) = 16%nat -> words_ok (chacha20.state s) ->
  Nat.iter n dround_inv (chacha20.state (Nat.iter n chacha20.doubleRound s))
  = chacha20.state s
  /\ (forall s0,
        length (chacha20.state s0) = 16%nat ->
        words_ok (chacha20.state s0) ->
        chacha20.state (Nat.iter n chacha20.doubleRound s0)
        = chacha20.state (Nat.iter n chacha20.doubleRound s) ->
        chacha20.state s0 = chacha20.state s).
Proof.
  intros Hlen Hok.
  assert (Hinv : forall t,
             length (chacha20.state t) = 16%nat ->
             words_ok (chacha20.state t) ->
             Nat.iter n dround_inv
               (chacha20.state (Nat.iter n chacha20.doubleRound t))
             = chacha20.state t).
  { intros t Ht Htw. rewrite iter_doubleRound.
    destruct t as [c k no st]. cbn [chacha20.with_state chacha20.state] in *.
    now apply iter_dround_inv_l. }
  split; [now apply Hinv|].
  intros s0 Hlen0 Hok0 Heq.
  rewrite <- (Hinv s0 Hlen0 Hok0), <- (Hinv s Hlen Hok).
  now rewrite Heq.
Qed.

Lemma doubleRound_invertible_witness :
  length (chacha20.state (chacha20.NewChaCha20 rfc_key rfc_nonce [1; 0; 0; 0]))
  = 16%nat
  /\ words_ok
       (chacha20.state (chacha20.NewChaCha20 rfc_key rfc_nonce [1; 0; 0; 0]))
  /\ Nat.iter 1 dround_inv
       (chacha20.state
          (Nat.iter 1 chacha20.doubleRound
             (chacha20.NewChaCha20 rfc_key rfc_nonce [1; 0; 0; 0])))
     = chacha20.state (chacha20.NewChaCha20 rfc_key rfc_nonce [1; 0; 0; 0]).
Proof.
  assert (Hl : length (chacha20.state
                         (chacha20.NewChaCha20 rfc_key rfc_nonce [1; 0; 0; 0]))
               = 16%nat) by (vm_compute; reflexivity).
  assert (Hb : forallb (fun w => (0 <=? w) && (w <? 2 ^ 32))
                 (chacha20.state
                    (chacha20.NewChaCha20 rfc_key rfc_nonce [1; 0; 0; 0]))
               = true) by (vm_compute; reflexivity).
  assert (Hw : words_ok
                 (chacha20.state
                    (chacha20.NewChaCha20 rfc_key rfc_nonce [1; 0; 0; 0]))).
  { apply Forall_forall. intros w Hin.
    rewrite forallb_forall in Hb. specialize (Hb w Hin).
    unfold is_word. lia. }
  split; [exact Hl|]. split; [exact Hw|].
  exact (proj1 (doubleRound_invertible _ 1 Hl Hw)).
Defined.
